(** * uinput_cli: touch-event injection, a shallow embedding

    The development follows [uinput_cli.c]: the C globals become one record
    of state, the device behind the file descriptor becomes a record of
    answers (what [EVIOCGABS] reports, which [write] calls go through), and
    every function that writes events is a state-passing function that
    returns the C status code together with the new state. Values of type
    [int] are integers of [Z]; where the C arithmetic can leave the range of
    [int], the wrap-around is written out. *)

From Stdlib Require Import ZArith QArith Qround Qabs Qpower Qreduction Lia Lqa List Bool.
From stdpp Require Import base list strings.

Local Open Scope Z_scope.

(** ** Machine integers *)

Definition INT_MIN : Z := - 2 ^ 31.
Definition INT_MAX : Z := 2 ^ 31 - 1.
Definition LLONG_MIN : Z := - 2 ^ 63.
Definition LLONG_MAX : Z := 2 ^ 63 - 1.

Definition is_int (z : Z) : Prop := INT_MIN <= z <= INT_MAX.
Definition is_llong (z : Z) : Prop := LLONG_MIN <= z <= LLONG_MAX.

(** Conversion to [int]: the value modulo [2^32], taken in the signed range.
    This is what the compiler named in the Makefile (gcc) does for a
    [long long] returned from a function of type [int]; the same wrap-around
    stands for [int] arithmetic that leaves the range. *)
Definition to_int (z : Z) : Z := (z + 2 ^ 31) mod 2 ^ 32 - 2 ^ 31.

Definition int_add (a b : Z) : Z := to_int (a + b).
Definition int_sub (a b : Z) : Z := to_int (a - b).
Definition int_mul (a b : Z) : Z := to_int (a * b).

(** ** Constants of the program and of <linux/input.h> *)

Definition RS_OK : Z := 0.
Definition RS_ERR : Z := -1.

Definition EV_SYN : Z := 0.
Definition EV_KEY : Z := 1.
Definition EV_ABS : Z := 3.
Definition SYN_REPORT : Z := 0.
Definition SYN_MT_REPORT : Z := 2.
Definition BTN_TOOL_FINGER : Z := 325. (* 0x145 *)
Definition BTN_TOUCH : Z := 330.       (* 0x14a *)
Definition ABS_X : Z := 0.
Definition ABS_Y : Z := 1.
Definition ABS_MT_SLOT : Z := 47.        (* 0x2f *)
Definition ABS_MT_POSITION_X : Z := 53.  (* 0x35 *)
Definition ABS_MT_POSITION_Y : Z := 54.  (* 0x36 *)
Definition ABS_MT_TRACKING_ID : Z := 57. (* 0x39 *)

(** The ceiling of the tracking-ID counter in [mt_down]. *)
Definition TRACKING_ID_MAX : Z := 1000000.

(** ** Data *)

(** [struct input_event] without its timestamp: the time of day is not a
    function of the program's inputs, and nothing below depends on it. *)
Record input_event := mkEvent {
  ev_type : Z;
  ev_code : Z;
  ev_value : Z
}.

(** [struct input_absinfo]; [map_x] and [map_y] read these two fields only. *)
Record input_absinfo := mkAbs {
  minimum : Z;
  maximum : Z
}.

(** What the process does to the outside, in program order. *)
Inductive action :=
| Wrote (e : input_event)   (* a complete [write] of one event *)
| Slept (usec : Z).         (* [usleep (usec)] *)

(** The device behind [fd]: the answer of [ioctl (fd, EVIOCGABS (code))]
    ([None] when the ioctl fails), and whether the n-th [write] on the
    descriptor, counted from 0, transfers the whole event. *)
Record device := mkDevice {
  absinfo : Z -> option input_absinfo;
  write_ok : nat -> bool
}.

(** The globals of the program, with the count of [write] calls made so far
    and the actions performed so far. *)
Record state := mkState {
  ui_w : Z;
  ui_h : Z;
  slot_tracking : list Z;
  next_tracking_id : Z;
  active_touches : Z;
  attempts : nat;
  trace : list action
}.

Definition set_slot_tracking (v : list Z) (s : state) : state :=
  mkState (ui_w s) (ui_h s) v (next_tracking_id s) (active_touches s)
          (attempts s) (trace s).
Definition set_next_tracking_id (v : Z) (s : state) : state :=
  mkState (ui_w s) (ui_h s) (slot_tracking s) v (active_touches s)
          (attempts s) (trace s).
Definition set_active_touches (v : Z) (s : state) : state :=
  mkState (ui_w s) (ui_h s) (slot_tracking s) (next_tracking_id s) v
          (attempts s) (trace s).
Definition count_write (s : state) : state :=
  mkState (ui_w s) (ui_h s) (slot_tracking s) (next_tracking_id s)
          (active_touches s) (S (attempts s)) (trace s).
Definition log (a : action) (s : state) : state :=
  mkState (ui_w s) (ui_h s) (slot_tracking s) (next_tracking_id s)
          (active_touches s) (attempts s) (trace s ++ [a]).

(** The state at process start: [--map W H] has set [ui_w] and [ui_h] (both
    0 without the option), the slot table has [max_slots] zero entries. *)
Definition init_state (w h max_slots : Z) : state :=
  mkState w h (replicate (Z.to_nat max_slots) 0) 1 0 O [].

(** ** State passing *)

Definition M (A : Type) : Type := state -> A * state.

Definition ret {A} (a : A) : M A := fun s => (a, s).
Definition bind {A B} (m : M A) (k : A -> M B) : M B :=
  fun s => let (a, s') := m s in k a s'.
Definition gets {A} (f : state -> A) : M A := fun s => (f s, s).
Definition modify (f : state -> state) : M unit := fun s => (tt, f s).

Notation "x <- m ;; k" := (bind m (fun x => k))
  (at level 100, m at next level, right associativity).
Notation "m ;;; k" := (bind m (fun _ => k))
  (at level 100, right associativity).

(** [m == RS_ERR] *)
Definition is_err (m : M Z) : M bool := r <- m ;; ret (r =? RS_ERR).
(** C's [a || b]: [b] runs only when [a] is false. *)
Definition orelse (a b : M bool) : M bool :=
  x <- a ;; if x then ret true else b.
Infix "|||" := orelse (at level 50, left associativity).

(** ** Tool functions *)

Definition write_event (fd : device) (type code value : Z) : M Z := fun s =>
  let ev := mkEvent type code value in
  if write_ok fd (attempts s)
  then (RS_OK, log (Wrote ev) (count_write s))
  else (RS_ERR, count_write s).

Definition syn (fd : device) : M Z := write_event fd EV_SYN SYN_REPORT 0.

Definition syn_mt (fd : device) : M Z := write_event fd EV_SYN SYN_MT_REPORT 0.

(** [usleep] takes a [useconds_t]: the product is computed in [int] and
    converted to unsigned 32 bits. *)
Definition msleep (ms : Z) : M unit :=
  if 0 <? ms then modify (log (Slept (int_mul ms 1000 mod 2 ^ 32)))
  else ret tt.

(** [read_absinfo]: [None] is [RS_ERR]; [Some a] is [RS_OK] with [*ainfo]
    filled with [a]. *)
Definition read_absinfo (fd : device) (code : Z) : option input_absinfo :=
  absinfo fd code.

(** The test of [map_x] and [map_y]: the second query is made only when the
    first fails, and the structure holds the answer of the query that
    succeeded. *)
Definition first_absinfo (fd : device) (code1 code2 : Z) : option input_absinfo :=
  match read_absinfo fd code1 with
  | Some a => Some a
  | None => read_absinfo fd code2
  end.

(** In [map_x] and [map_y] the rescaling is computed in [long long] ([÷]
    truncates towards zero like C's [/]) and converted to the [int] return
    type. *)
Definition map_x (fd : device) (lx : Z) : M Z :=
  w <- gets ui_w ;;
  if w =? 0 then ret lx else
  match first_absinfo fd ABS_MT_POSITION_X ABS_X with
  | None => ret lx
  | Some ax =>
      let min := minimum ax in
      let max := maximum ax in
      ret (to_int (lx * (max - min) ÷ w + min))
  end.

Definition map_y (fd : device) (ly : Z) : M Z :=
  h <- gets ui_h ;;
  if h =? 0 then ret ly else
  match first_absinfo fd ABS_MT_POSITION_Y ABS_Y with
  | None => ret ly
  | Some ay =>
      let min := minimum ay in
      let max := maximum ay in
      ret (to_int (ly * (max - min) ÷ h + min))
  end.

Definition btn_touch_set (fd : device) (val : Z) : M Z :=
  e <- is_err (write_event fd EV_KEY BTN_TOUCH val) ;;
  if e then ret RS_ERR else syn fd.

(** ** Single-touch gestures *)

Definition do_tap (fd : device) (lx ly hold_ms : Z) : M Z :=
  x <- map_x fd lx ;;
  y <- map_y fd ly ;;
  e <- (is_err (write_event fd EV_KEY BTN_TOUCH 1) |||
        is_err (write_event fd EV_KEY BTN_TOOL_FINGER 1) |||
        is_err (write_event fd EV_ABS ABS_MT_POSITION_X x) |||
        is_err (write_event fd EV_ABS ABS_MT_POSITION_Y y) |||
        is_err (syn_mt fd) |||
        is_err (syn fd)) ;;
  if e then ret RS_ERR else
  msleep hold_ms ;;;
  e <- (is_err (write_event fd EV_KEY BTN_TOUCH 0) |||
        is_err (write_event fd EV_KEY BTN_TOOL_FINGER 0) |||
        is_err (syn_mt fd) |||
        is_err (syn fd)) ;;
  if e then ret RS_ERR else
  ret RS_OK.

Definition do_press (fd : device) (lx ly : Z) : M Z :=
  x <- map_x fd lx ;;
  y <- map_y fd ly ;;
  e <- (is_err (write_event fd EV_KEY BTN_TOUCH 1) |||
        is_err (write_event fd EV_KEY BTN_TOOL_FINGER 1) |||
        is_err (write_event fd EV_ABS ABS_MT_POSITION_X x) |||
        is_err (write_event fd EV_ABS ABS_MT_POSITION_Y y) |||
        is_err (syn_mt fd) |||
        is_err (syn fd)) ;;
  if e then ret RS_ERR else
  ret RS_OK.

Definition do_release (fd : device) : M Z :=
  e <- (is_err (write_event fd EV_KEY BTN_TOUCH 0) |||
        is_err (write_event fd EV_KEY BTN_TOOL_FINGER 0) |||
        is_err (syn_mt fd) |||
        is_err (syn fd)) ;;
  if e then ret RS_ERR else
  ret RS_OK.

Definition do_longpress (fd : device) (lx ly hold_ms : Z) : M Z :=
  do_tap fd lx ly hold_ms.

(** ** Single-precision arithmetic

    [do_swipe] interpolates in [float]. A binary32 value is represented by
    the rational it denotes, and every operation rounds its exact result to
    the nearest value with a 24-bit significand, ties to even (the target
    evaluates [float] expressions in [float], and [-std=c99] rules out
    fused operations). The exponent range is left out: the operands are
    [int] values and quotients [i / steps] with [1 <= i <= steps], all
    within the normal range of binary32. *)
Module F32.

Definition pow2 (e : Z) : Q :=
  if 0 <=? e then inject_Z (2 ^ e) else 1 # Z.to_pos (2 ^ (- e)).

(** [floor (log2 q)] for [q > 0]. *)
Definition ilog2 (q : Q) : Z :=
  let e := Z.log2 (Qnum q) - Z.log2 (Zpos (Qden q)) in
  if Qle_bool (pow2 e) q then e else e - 1.

(** The nearest integer, ties to even. *)
Definition nearest_even (q : Q) : Z :=
  let f := Qfloor q in
  match Qcompare (q - inject_Z f) (1 # 2) with
  | Lt => f
  | Gt => f + 1
  | Eq => if Z.even f then f else f + 1
  end.

Definition round (q : Q) : Q :=
  if Qeq_bool q 0 then 0%Q else
  let e := ilog2 (Qabs q) - 23 in
  Qred (inject_Z (nearest_even (q / pow2 e)) * pow2 e).

Definition of_int (z : Z) : Q := round (inject_Z z).
Definition add (a b : Q) : Q := round (a + b).
Definition mul (a b : Q) : Q := round (a * b).
Definition div (a b : Q) : Q := round (a / b).

(** Conversion to [int] discards the fraction. A value outside the range of
    [int] has no defined conversion in C; the saturation of the target's
    conversion instruction stands for it here. *)
Definition to_int (q : Q) : Z :=
  let z := Qnum q ÷ Zpos (Qden q) in
  Z.max INT_MIN (Z.min INT_MAX z).

End F32.

(** ** Swipe *)

(** [a + (b - a) * t] with [a], [b] of type [int] and [t] of type [float],
    stored into an [int]: the expression of [xi] and [yi] in [do_swipe]. *)
Definition lerp (a b : Z) (t : Q) : Z :=
  F32.to_int (F32.add (F32.of_int a) (F32.mul (F32.of_int (int_sub b a)) t)).

(** The body of the loop of [do_swipe], [n] iterations from index [i] on.
    In [do_swipe] the loop runs for [i = 1, ..., steps]; the counter stays
    an [int] as long as [steps < INT_MAX]. The result is [RS_ERR] when the
    body returned from the function, [RS_OK] when the loop ran to its
    end.

    With [steps = INT_MAX] the test [i <= steps] of the C loop never fails
    and [i++] overflows: that call is outside this definition, which counts
    in [Z] and stops. What is said of a swipe that returns is said for
    [steps < INT_MAX]. *)
Fixpoint swipe_loop (n : nat) (fd : device)
    (x1 y1 x2 y2 duration_ms steps i : Z) : M Z :=
  match n with
  | O => ret RS_OK
  | S n' =>
      let t := F32.div (F32.of_int i) (F32.of_int steps) in
      let xi := lerp x1 x2 t in
      let yi := lerp y1 y2 t in
      e <- (is_err (mx <- map_x fd xi ;; write_event fd EV_ABS ABS_X mx) |||
            is_err (my <- map_y fd yi ;; write_event fd EV_ABS ABS_Y my) |||
            is_err (syn fd)) ;;
      if e then ret RS_ERR else
      msleep (duration_ms ÷ steps) ;;;
      swipe_loop n' fd x1 y1 x2 y2 duration_ms steps (i + 1)
  end.

Definition do_swipe (fd : device) (x1 y1 x2 y2 duration_ms steps : Z) : M Z :=
  let steps := if steps <? 1 then 10 else steps in
  e <- is_err (do_tap fd x1 y1 0) ;;
  if e then ret RS_ERR else
  r <- swipe_loop (Z.to_nat steps) fd x1 y1 x2 y2 duration_ms steps 1 ;;
  if r =? RS_ERR then ret RS_ERR else
  e <- (is_err (write_event fd EV_KEY BTN_TOUCH 0) |||
        is_err (syn fd)) ;;
  if e then ret RS_ERR else
  ret RS_OK.

(** ** Multi-touch operations

    These are compiled when [MAX_SLOTS > 1]; the macro is an argument. *)

(** [slot_tracking[slot]]; every read in the program is behind the bounds
    test. *)
Definition slot_at (s : state) (slot : Z) : Z :=
  default 0 (slot_tracking s !! Z.to_nat slot).

Definition mt_down (MAX_SLOTS : Z) (fd : device) (slot lx ly : Z) : M Z :=
  if (slot <? 0) || (slot >=? MAX_SLOTS) then ret RS_ERR else
  x <- map_x fd lx ;;
  y <- map_y fd ly ;;
  tid <- gets next_tracking_id ;;
  modify (fun s => set_next_tracking_id (int_add (next_tracking_id s) 1) s) ;;;
  n <- gets next_tracking_id ;;
  (if n >? TRACKING_ID_MAX then modify (set_next_tracking_id 1) else ret tt) ;;;
  modify (fun s => set_slot_tracking (<[Z.to_nat slot := tid]> (slot_tracking s)) s) ;;;
  a <- gets active_touches ;;
  e <- (if a =? 0 then is_err (btn_touch_set fd 1) else ret false) ;;
  if e then ret RS_ERR else
  modify (fun s => set_active_touches (int_add (active_touches s) 1) s) ;;;
  e <- (is_err (write_event fd EV_ABS ABS_MT_SLOT slot) |||
        is_err (write_event fd EV_ABS ABS_MT_TRACKING_ID tid) |||
        is_err (write_event fd EV_ABS ABS_MT_POSITION_X x) |||
        is_err (write_event fd EV_ABS ABS_MT_POSITION_Y y) |||
        is_err (syn_mt fd) |||
        is_err (syn fd)) ;;
  if e then ret RS_ERR else
  ret RS_OK.

Definition mt_move (MAX_SLOTS : Z) (fd : device) (slot lx ly : Z) : M Z :=
  c <- (ret (slot <? 0) ||| ret (slot >=? MAX_SLOTS) |||
        gets (fun s => slot_at s slot =? 0)) ;;
  if c then ret RS_ERR else
  x <- map_x fd lx ;;
  y <- map_y fd ly ;;
  e <- (is_err (write_event fd EV_ABS ABS_MT_SLOT slot) |||
        is_err (write_event fd EV_ABS ABS_MT_POSITION_X x) |||
        is_err (write_event fd EV_ABS ABS_MT_POSITION_Y y) |||
        is_err (syn_mt fd) |||
        is_err (syn fd)) ;;
  if e then ret RS_ERR else
  ret RS_OK.

Definition mt_up (MAX_SLOTS : Z) (fd : device) (slot : Z) : M Z :=
  e <- (ret (slot <? 0) ||| ret (slot >=? MAX_SLOTS) |||
        gets (fun s => slot_at s slot =? 0) |||
        is_err (write_event fd EV_ABS ABS_MT_SLOT slot) |||
        is_err (write_event fd EV_ABS ABS_MT_TRACKING_ID (-1)) |||
        is_err (syn_mt fd) |||
        is_err (syn fd)) ;;
  if e then ret RS_ERR else
  modify (fun s => set_slot_tracking (<[Z.to_nat slot := 0]> (slot_tracking s)) s) ;;;
  modify (fun s => set_active_touches (int_sub (active_touches s) 1) s) ;;;
  a <- gets active_touches ;;
  if a <=? 0 then
    modify (set_active_touches 0) ;;;
    e <- is_err (btn_touch_set fd 0) ;;
    if e then ret RS_ERR else
    ret RS_OK
  else
  ret RS_OK.

(** ** The two axes of the coordinate mapper *)

Inductive axis := AxisX | AxisY.

Definition map_axis (ax : axis) : device -> Z -> M Z :=
  match ax with AxisX => map_x | AxisY => map_y end.
(** The configured UI dimension the axis is mapped from. *)
Definition ui_dim (ax : axis) : state -> Z :=
  match ax with AxisX => ui_w | AxisY => ui_h end.
(** The multi-touch and the single-touch position axis that are queried. *)
Definition mt_code (ax : axis) : Z :=
  match ax with AxisX => ABS_MT_POSITION_X | AxisY => ABS_MT_POSITION_Y end.
Definition st_code (ax : axis) : Z :=
  match ax with AxisX => ABS_X | AxisY => ABS_Y end.

(** The rescaling as the specification writes it, over the integers. *)
Definition rescale_spec (l dim amin amax : Z) : Z :=
  l * (amax - amin) ÷ dim + amin.

(** A device that reports the range [lo .. hi] on the multi-touch position
    axes, nothing on the single-touch ones, and accepts every write. *)
Definition mt_panel (lo hi : Z) : device :=
  mkDevice (fun c => if (c =? ABS_MT_POSITION_X) || (c =? ABS_MT_POSITION_Y)
                     then Some (mkAbs lo hi) else None)
           (fun _ => true).
(** A device without absolute-axis information that accepts every write. *)
Definition plain_dev : device := mkDevice (fun _ => None) (fun _ => true).

(** ** Observations on a run *)

(** The actions an operation adds to the trace when run from [s]. *)
Definition emitted {A} (m : M A) (s : state) : list action :=
  drop (length (trace s)) (trace (snd (m s))).

Definition ev (type code value : Z) : action := Wrote (mkEvent type code value).

(** A frame commit is a written [EV_SYN] / [SYN_REPORT] event. *)
Definition is_commit (a : action) : bool :=
  match a with
  | Wrote e => (ev_type e =? EV_SYN) && (ev_code e =? SYN_REPORT)
  | Slept _ => false
  end.

Fixpoint commits (l : list action) : nat :=
  match l with
  | [] => O
  | a :: l' => if is_commit a then S (commits l') else commits l'
  end.

(** The value the mapper returns for [l] on axis [ax] in state [s]. *)
Definition mapped (ax : axis) (fd : device) (s : state) (l : Z) : Z :=
  fst (map_axis ax fd l s).

(** The emission sequences of the specification's gesture table. *)
Definition contact_actions (x y : Z) : list action :=
  [ev EV_KEY BTN_TOUCH 1; ev EV_KEY BTN_TOOL_FINGER 1;
   ev EV_ABS ABS_MT_POSITION_X x; ev EV_ABS ABS_MT_POSITION_Y y;
   ev EV_SYN SYN_MT_REPORT 0; ev EV_SYN SYN_REPORT 0].

Definition release_actions : list action :=
  [ev EV_KEY BTN_TOUCH 0; ev EV_KEY BTN_TOOL_FINGER 0;
   ev EV_SYN SYN_MT_REPORT 0; ev EV_SYN SYN_REPORT 0].

Definition sleep_actions (ms : Z) : list action :=
  if 0 <? ms then [Slept (int_mul ms 1000 mod 2 ^ 32)] else [].

Definition tap_actions (x y hold_ms : Z) : list action :=
  contact_actions x y ++ sleep_actions hold_ms ++ release_actions.

(** The [i]-th interpolated point of a swipe, before the mapper. *)
Definition swipe_point (x1 y1 x2 y2 steps i : Z) : Z * Z :=
  let t := F32.div (F32.of_int i) (F32.of_int steps) in
  (lerp x1 x2 t, lerp y1 y2 t).

(** Points [i, i+1, ...] ([n] of them); a swipe has the points [1 .. steps]. *)
Definition swipe_points (x1 y1 x2 y2 steps i : Z) (n : nat) : list (Z * Z) :=
  swipe_point x1 y1 x2 y2 steps <$> seqZ i (Z.of_nat n).

(** One step of the movement phase: the point on the single-touch axes, a
    frame commit, the pause. *)
Definition step_actions (fd : device) (s : state) (pause_ms : Z) (p : Z * Z)
  : list action :=
  [ev EV_ABS ABS_X (mapped AxisX fd s (fst p));
   ev EV_ABS ABS_Y (mapped AxisY fd s (snd p));
   ev EV_SYN SYN_REPORT 0] ++ sleep_actions pause_ms.

Definition movement_actions (fd : device) (s : state) (pause_ms : Z)
    (pts : list (Z * Z)) : list action :=
  concat (step_actions fd s pause_ms <$> pts).

Definition lift_actions : list action :=
  [ev EV_KEY BTN_TOUCH 0; ev EV_SYN SYN_REPORT 0].

(** The step count [do_swipe] works with. *)
Definition effective_steps (steps : Z) : Z := if steps <? 1 then 10 else steps.

Definition swipe_actions (fd : device) (s : state)
    (x1 y1 x2 y2 duration_ms steps : Z) : list action :=
  let n := effective_steps steps in
  tap_actions (mapped AxisX fd s x1) (mapped AxisY fd s y1) 0 ++
  movement_actions fd s (duration_ms ÷ n)
    (swipe_points x1 y1 x2 y2 n 1 (Z.to_nat n)) ++
  lift_actions.

(** The aggregate touch-contact signal with its own frame commit, as
    [btn_touch_set] writes it. *)
Definition touch_signal_actions (val : Z) : list action :=
  [ev EV_KEY BTN_TOUCH val; ev EV_SYN SYN_REPORT 0].

(** What the multi-touch operations write when every write goes through;
    [first] says that no touch was active before the down, [last] that none
    is active after the up. *)
Definition mt_down_actions (first : bool) (slot tid x y : Z) : list action :=
  (if first then touch_signal_actions 1 else []) ++
  [ev EV_ABS ABS_MT_SLOT slot; ev EV_ABS ABS_MT_TRACKING_ID tid;
   ev EV_ABS ABS_MT_POSITION_X x; ev EV_ABS ABS_MT_POSITION_Y y;
   ev EV_SYN SYN_MT_REPORT 0; ev EV_SYN SYN_REPORT 0].

Definition mt_move_actions (slot x y : Z) : list action :=
  [ev EV_ABS ABS_MT_SLOT slot;
   ev EV_ABS ABS_MT_POSITION_X x; ev EV_ABS ABS_MT_POSITION_Y y;
   ev EV_SYN SYN_MT_REPORT 0; ev EV_SYN SYN_REPORT 0].

Definition mt_up_actions (last : bool) (slot : Z) : list action :=
  [ev EV_ABS ABS_MT_SLOT slot; ev EV_ABS ABS_MT_TRACKING_ID (-1);
   ev EV_SYN SYN_MT_REPORT 0; ev EV_SYN SYN_REPORT 0] ++
  (if last then touch_signal_actions 0 else []).

(** One of the writes made between [s] and [s'] did not go through. *)
Definition write_failed (fd : device) (s s' : state) : Prop :=
  exists k, (attempts s <= k < attempts s')%nat /\ write_ok fd k = false.

(** A position event on a multi-touch axis, or the multi-touch report
    marker. *)
Definition is_mt_report (a : action) : bool :=
  match a with
  | Wrote e =>
      ((ev_type e =? EV_ABS) &&
       ((ev_code e =? ABS_MT_POSITION_X) || (ev_code e =? ABS_MT_POSITION_Y))) ||
      ((ev_type e =? EV_SYN) && (ev_code e =? SYN_MT_REPORT))
  | Slept _ => false
  end.

(** ** Sequences of multi-touch operations *)

Inductive mt_op :=
| MtDown (slot x y : Z)
| MtMove (slot x y : Z)
| MtUp (slot : Z).

Definition run_op (MAX_SLOTS : Z) (fd : device) (op : mt_op) : M Z :=
  match op with
  | MtDown slot x y => mt_down MAX_SLOTS fd slot x y
  | MtMove slot x y => mt_move MAX_SLOTS fd slot x y
  | MtUp slot => mt_up MAX_SLOTS fd slot
  end.

(** The state after the operations of [ops], in order, whatever they
    return. *)
Fixpoint run_ops (MAX_SLOTS : Z) (fd : device) (ops : list mt_op) (s : state)
  : state :=
  match ops with
  | [] => s
  | op :: ops' => run_ops MAX_SLOTS fd ops' (snd (run_op MAX_SLOTS fd op s))
  end.

(** The number of slots with a nonzero tracking ID. *)
Definition active_slots (s : state) : Z :=
  Z.of_nat (length (List.filter (fun t => negb (t =? 0)) (slot_tracking s))).

(** The value of the last [BTN_TOUCH] event written, 0 when there is none:
    whether the aggregate touch-contact signal stands asserted. *)
Fixpoint btn_touch_level (l : list action) (level : Z) : Z :=
  match l with
  | [] => level
  | Wrote e :: l' =>
      if (ev_type e =? EV_KEY) && (ev_code e =? BTN_TOUCH)
      then btn_touch_level l' (ev_value e)
      else btn_touch_level l' level
  | Slept _ :: l' => btn_touch_level l' level
  end.

Definition touch_asserted (s : state) : bool :=
  negb (btn_touch_level (trace s) 0 =? 0).

(** The operation left the globals of the program as they were. *)
Definition same_globals (s s' : state) : Prop :=
  ui_w s' = ui_w s /\ ui_h s' = ui_h s /\
  slot_tracking s' = slot_tracking s /\
  next_tracking_id s' = next_tracking_id s /\
  active_touches s' = active_touches s.

(** The tracking-ID counter after one allocation. *)
Definition next_id (n : Z) : Z :=
  if int_add n 1 >? TRACKING_ID_MAX then 1 else int_add n 1.



(** The slot table has its declared size and the counter of IDs is within
    [1 .. TRACKING_ID_MAX]. *)
Definition tracker_wf (MAX_SLOTS : Z) (s : state) : Prop :=
  length (slot_tracking s) = Z.to_nat MAX_SLOTS /\
  1 <= next_tracking_id s <= TRACKING_ID_MAX.

(** A touch that goes down and up again on slot 1. *)
Definition touch_and_lift : list mt_op := [MtDown 1 300 150; MtUp 1].

(** One finger stays down on slot 0 while a second one taps 999999 times on
    slot 1 and then goes down once more. *)
Definition long_session : list mt_op :=
  [MtDown 0 150 150] ++
  concat (replicate (Z.to_nat 999999) touch_and_lift) ++
  [MtDown 1 300 150].

(** A device that refuses the write number [n] and accepts the others. *)
Definition flaky_dev (n : nat) : device :=
  mkDevice (fun _ => None) (fun k => negb (Nat.eqb k n)).

(** Every write on the device goes through. *)
Definition reliable (fd : device) : Prop := forall n, write_ok fd n = true.

(** The operations of [ops], run in order from [s], never issue an
    [mt_down] on a slot that is active at that moment. *)
Fixpoint no_second_down (MAX_SLOTS : Z) (fd : device) (ops : list mt_op)
    (s : state) : Prop :=
  match ops with
  | [] => True
  | op :: ops' =>
      match op with
      | MtDown slot _ _ => 0 <= slot < MAX_SLOTS -> slot_at s slot = 0
      | _ => True
      end /\
      no_second_down MAX_SLOTS fd ops' (snd (run_op MAX_SLOTS fd op s))
  end.

(** The invariant of the specification's slot table: the table has its
    declared size, the count of active touches is the number of active
    slots, and the touch-contact signal is asserted exactly when the count
    is positive. *)
Definition count_invariant (MAX_SLOTS : Z) (s : state) : Prop :=
  length (slot_tracking s) = Z.to_nat MAX_SLOTS /\
  active_touches s = active_slots s /\
  touch_asserted s = (0 <? active_touches s).

(** Every write that the operations of [ops] attempted, run in order from
    [s], went through. *)
Fixpoint every_write_through (MAX_SLOTS : Z) (fd : device) (ops : list mt_op)
    (s : state) : Prop :=
  match ops with
  | [] => True
  | op :: ops' =>
      ~ write_failed fd s (snd (run_op MAX_SLOTS fd op s)) /\
      every_write_through MAX_SLOTS fd ops' (snd (run_op MAX_SLOTS fd op s))
  end.

(** ** Further observations on a run *)

(** The number of events written in a list of actions, and the time slept
    in it, in microseconds. *)
Fixpoint written (l : list action) : nat :=
  match l with
  | [] => O
  | Wrote _ :: l' => S (written l')
  | Slept _ :: l' => written l'
  end.

Fixpoint slept_total (l : list action) : Z :=
  match l with
  | [] => 0
  | Wrote _ :: l' => slept_total l'
  | Slept usec :: l' => usec + slept_total l'
  end.

(** A press, the pause and a release, one after the other, the next one
    only when the one before succeeded. *)
Definition press_hold_release (fd : device) (lx ly hold_ms : Z) : M Z :=
  r <- do_press fd lx ly ;;
  if r =? RS_ERR then ret RS_ERR else
  msleep hold_ms ;;;
  do_release fd.

(** A down followed by an up on the same slot. *)
Definition down_then_up (MAX_SLOTS : Z) (fd : device) (slot lx ly : Z) : M Z :=
  r <- mt_down MAX_SLOTS fd slot lx ly ;;
  if r =? RS_ERR then ret RS_ERR else
  mt_up MAX_SLOTS fd slot.

(** ** The command dispatch of [main]

    [main] from the test of [optind] on: the option loop before it belongs
    to [getopt_long] and has left the device path, the grab flag, [ui_w] and
    [ui_h]. [rest] is [argv] from [argv[optind]] to [argv[argc - 1]];
    [opened] is the device [open_dev] returns, [None] when it fails; [atoi]
    is the C library's. No gesture has run before, so the globals have their
    initial values.

    The result is [None] where the C program has no defined outcome: a read
    of an operand that is not there hands [atoi] the null pointer that ends
    [argv], or reads past it; and a swipe with [INT_MAX] steps never leaves
    its loop, whose test [i <= steps] cannot fail, and overflows the counter.
    Elsewhere the result is the outcome under the wrap-around written out
    for [int] arithmetic in the functions called. *)

Record exit_state := mkExit {
  exit_status : Z;        (* the value [main] returns *)
  dev_opened : bool;      (* [open_dev] was called and succeeded *)
  dev_grabbed : bool;     (* [ioctl (fd, EVIOCGRAB, 1)] was issued *)
  usage_shown : bool;     (* [usage] was called *)
  exit_globals : state    (* the globals and the trace at the return *)
}.

Definition main_command (MAX_SLOTS : Z) (atoi : string -> Z)
    (opened : option device) (grab_flag : bool) (w h : Z) (rest : list string)
  : option exit_state :=
  let s0 := init_state w h MAX_SLOTS in
  let operand (k : nat) : option Z := atoi <$> rest !! k in
  match rest with
  | [] => Some (mkExit RS_ERR false false false s0)
  | cmd :: _ =>
      match opened with
      | None => Some (mkExit RS_ERR false false false s0)
      | Some fd =>
          let finish (r : Z * state) :=
            Some (mkExit (fst r) true grab_flag false (snd r)) in
          if String.eqb cmd "tap" then
            x ← operand 1%nat; y ← operand 2%nat;
            hold ← (if (3 <? length rest)%nat then operand 3%nat else Some 100);
            finish (do_tap fd x y hold s0)
          else if String.eqb cmd "press" then
            x ← operand 1%nat; y ← operand 2%nat;
            finish (do_press fd x y s0)
          else if String.eqb cmd "release" then
            finish (do_release fd s0)
          else if String.eqb cmd "longpress" then
            x ← operand 1%nat; y ← operand 2%nat; ms ← operand 3%nat;
            finish (do_longpress fd x y ms s0)
          else if String.eqb cmd "swipe" then
            x1 ← operand 1%nat; y1 ← operand 2%nat;
            x2 ← operand 3%nat; y2 ← operand 4%nat;
            ms ← operand 5%nat;
            steps ← (if (6 <? length rest)%nat then operand 6%nat else Some 20);
            if INT_MAX <=? steps then None
            else finish (do_swipe fd x1 y1 x2 y2 ms steps s0)
          else if (1 <? MAX_SLOTS) && String.eqb cmd "mt-down" then
            slot ← operand 1%nat; x ← operand 2%nat; y ← operand 3%nat;
            finish (mt_down MAX_SLOTS fd slot x y s0)
          else if (1 <? MAX_SLOTS) && String.eqb cmd "mt-move" then
            slot ← operand 1%nat; x ← operand 2%nat; y ← operand 3%nat;
            finish (mt_move MAX_SLOTS fd slot x y s0)
          else if (1 <? MAX_SLOTS) && String.eqb cmd "mt-up" then
            slot ← operand 1%nat;
            finish (mt_up MAX_SLOTS fd slot s0)
          else
            Some (mkExit RS_OK true grab_flag true s0)
      end
  end.

(** The commands of the single-touch gestures and of the multi-touch
    operations. *)
Definition single_touch_commands : list string :=
  ["tap"; "press"; "release"; "longpress"; "swipe"].
Definition multi_touch_commands : list string :=
  ["mt-down"; "mt-move"; "mt-up"].

(** The value of a string of decimal digits: what [atoi] returns for one,
    for the examples. *)
Fixpoint digits_value (s : string) (acc : Z) : Z :=
  match s with
  | EmptyString => acc
  | String c s' =>
      let d := Z.of_nat (Ascii.nat_of_ascii c) - 48 in
      if (0 <=? d) && (d <=? 9) then digits_value s' (10 * acc + d) else acc
  end.
Definition atoi_digits (s : string) : Z := digits_value s 0.

(** Two operations in a row, the second one only when the first did not
    fail. *)
Definition and_then (m1 m2 : M Z) : M Z :=
  r <- m1 ;; if r =? RS_ERR then ret RS_ERR else m2.

(** What a run of a gesture with the full sequence [full] looks like: it
    added a prefix of [full] to the trace; it made one attempt for each
    event written, and one more when it failed; it returned [RS_OK] or
    [RS_ERR]; it failed exactly when a write did not go through; it
    succeeded with the whole of [full]. *)
Definition aborts_at_first_failure (fd : device) (m : M Z) (full : list action)
    (s : state) : Prop :=
  exists l,
    trace (snd (m s)) = trace s ++ l /\
    l `prefix_of` full /\
    attempts (snd (m s)) =
      (attempts s + written l + if (fst (m s) =? RS_ERR)%Z then 1 else 0)%nat /\
    (fst (m s) = RS_OK \/ fst (m s) = RS_ERR) /\
    (fst (m s) = RS_ERR <-> write_failed fd s (snd (m s))) /\
    (fst (m s) = RS_OK -> l = full).

(** One turn of the loop of [do_swipe] as an operation of its own: the two
    positions and the frame commit, then the pause. *)
Definition swipe_step (fd : device) (x1 y1 x2 y2 duration_ms steps i : Z) : M Z :=
  let t := F32.div (F32.of_int i) (F32.of_int steps) in
  let xi := lerp x1 x2 t in
  let yi := lerp y1 y2 t in
  e <- (is_err (mx <- map_x fd xi ;; write_event fd EV_ABS ABS_X mx) |||
        is_err (my <- map_y fd yi ;; write_event fd EV_ABS ABS_Y my) |||
        is_err (syn fd)) ;;
  if e then ret RS_ERR else
  msleep (duration_ms ÷ steps) ;;;
  ret RS_OK.

(** The end of [do_swipe] as an operation of its own: the touch key goes up
    with a frame commit. *)
Definition swipe_lift (fd : device) : M Z :=
  e <- (is_err (write_event fd EV_KEY BTN_TOUCH 0) |||
        is_err (syn fd)) ;;
  if e then ret RS_ERR else
  ret RS_OK.

(** * Properties *)

#[local] Arguments to_int : simpl never.
#[local] Arguments Z.quot : simpl never.
#[local] Arguments Z.mul : simpl never.
#[local] Arguments Z.add : simpl never.
#[local] Arguments Z.sub : simpl never.

(** ** Machine integers *)

Lemma to_int_id z : is_int z -> to_int z = z.
Proof.
  unfold is_int, INT_MIN, INT_MAX, to_int. intros H.
  rewrite Z.mod_small; lia.
Qed.

Lemma to_int_is_int z : is_int (to_int z).
Proof.
  unfold is_int, INT_MIN, INT_MAX, to_int.
  pose proof (Z.mod_pos_bound (z + 2 ^ 31) (2 ^ 32) ltac:(lia)). lia.
Qed.

(** The [long long] computation of the mapper cannot overflow: for [int]
    operands every intermediate value fits 64 bits. *)
Lemma rescale_fits_llong l dim amin amax :
  is_int l -> is_int dim -> is_int amin -> is_int amax -> dim <> 0 ->
  is_llong (amax - amin) /\ is_llong (l * (amax - amin)) /\
  is_llong (l * (amax - amin) ÷ dim) /\ is_llong (rescale_spec l dim amin amax).
Proof.
  unfold is_int, is_llong, INT_MIN, INT_MAX, LLONG_MIN, LLONG_MAX, rescale_spec.
  intros Hl Hd Ha Hb Hd0.
  assert (Hp : - (2 ^ 63 - 2 ^ 31) <= l * (amax - amin) <= 2 ^ 63 - 2 ^ 31) by nia.
  assert (Hq : Z.abs (l * (amax - amin) ÷ dim) <= Z.abs (l * (amax - amin))).
  { rewrite <- Z.quot_abs by lia.
    apply Z.quot_le_upper_bound; [lia|].
    assert (1 <= Z.abs dim) by lia. nia. }
  repeat split; lia.
Qed.

(** ** Single-precision arithmetic, on known values

    0.1f is 13421773 / 2^27 and 1.0f / 3.0f is 11184811 / 2^25; 2^24 + 1 is
    halfway between two values and goes to the even one; the conversion to
    [int] drops the fraction. *)

Example f32_one_tenth : F32.round (1 # 10) = (13421773 # 134217728)%Q.
Proof. vm_compute. reflexivity. Qed.

Example f32_one_third :
  F32.div (F32.of_int 1) (F32.of_int 3) = (11184811 # 33554432)%Q.
Proof. vm_compute. reflexivity. Qed.

Example f32_ties_to_even :
  F32.of_int 16777217 = inject_Z 16777216 /\
  F32.of_int 16777219 = inject_Z 16777220.
Proof. vm_compute. split; reflexivity. Qed.

Example f32_to_int_truncates :
  F32.to_int (7 # 2) = 3 /\ F32.to_int (-7 # 2) = -3.
Proof. vm_compute. split; reflexivity. Qed.

(** The last step of a swipe has [t = 1] and lands on the end point. *)
Example lerp_last_step :
  F32.div (F32.of_int 20) (F32.of_int 20) = 1%Q /\
  lerp 100 400 (F32.div (F32.of_int 20) (F32.of_int 20)) = 400.
Proof. vm_compute. split; reflexivity. Qed.

(** ** Coordinate mapper *)

Lemma map_axis_state ax fd l s : snd (map_axis ax fd l s) = s.
Proof.
  destruct ax; unfold map_axis, map_x, map_y, bind, gets, ret; simpl;
    repeat (case_match; simpl); reflexivity.
Qed.

Lemma map_axis_unset ax fd l s :
  ui_dim ax s = 0 -> fst (map_axis ax fd l s) = l.
Proof.
  destruct ax; unfold map_axis, map_x, map_y, bind, gets, ret; simpl;
    intros ->; reflexivity.
Qed.

Lemma map_axis_no_info ax fd l s :
  first_absinfo fd (mt_code ax) (st_code ax) = None ->
  fst (map_axis ax fd l s) = l.
Proof.
  destruct ax; unfold map_axis, map_x, map_y, bind, gets, ret; simpl;
    intros ->; case_match; reflexivity.
Qed.

Lemma map_axis_rescaled ax fd l s a :
  ui_dim ax s <> 0 ->
  first_absinfo fd (mt_code ax) (st_code ax) = Some a ->
  fst (map_axis ax fd l s) =
  to_int (rescale_spec l (ui_dim ax s) (minimum a) (maximum a)).
Proof.
  destruct ax; unfold map_axis, map_x, map_y, bind, gets, ret, rescale_spec;
    simpl; intros Hd ->; apply Z.eqb_neq in Hd; rewrite Hd; reflexivity.
Qed.

(** C1 (amended): for either axis and every logical coordinate, the mapper
    returns the coordinate unchanged when the UI dimension of the axis is
    zero; when it is not zero and an axis query succeeds (the multi-touch
    position axis first, the single-touch position axis when that fails) it
    returns [l * (max - min) / dim + min], computed with truncating division
    and converted to the 32-bit [int] return type, which is that very value
    whenever it lies in the range of [int]; when both queries fail it
    returns the coordinate unchanged. *)
Theorem coordinate_mapper_contract (ax : axis) (fd : device) (l : Z) (s : state) :
  (ui_dim ax s = 0 -> fst (map_axis ax fd l s) = l) /\
  (forall a,
     ui_dim ax s <> 0 ->
     absinfo fd (mt_code ax) = Some a \/
     (absinfo fd (mt_code ax) = None /\ absinfo fd (st_code ax) = Some a) ->
     fst (map_axis ax fd l s) =
       to_int (rescale_spec l (ui_dim ax s) (minimum a) (maximum a)) /\
     (is_int (rescale_spec l (ui_dim ax s) (minimum a) (maximum a)) ->
      fst (map_axis ax fd l s) =
        rescale_spec l (ui_dim ax s) (minimum a) (maximum a))) /\
  (absinfo fd (mt_code ax) = None -> absinfo fd (st_code ax) = None ->
   fst (map_axis ax fd l s) = l).
Proof.
  split; [apply map_axis_unset | split].
  - intros a Hd Ha.
    assert (Hf : first_absinfo fd (mt_code ax) (st_code ax) = Some a).
    { unfold first_absinfo, read_absinfo.
      destruct Ha as [-> | [-> ->]]; reflexivity. }
    rewrite (map_axis_rescaled ax fd l s a Hd Hf).
    split; [reflexivity | apply to_int_id].
  - intros H1 H2. apply map_axis_no_info.
    unfold first_absinfo, read_absinfo. rewrite H1. exact H2.
Qed.

Lemma coordinate_mapper_contract_witness :
  fst (map_x (mt_panel 0 4095) 400 (init_state 0 0 1)) = 400 /\
  fst (map_x (mt_panel 0 4095) 400 (init_state 800 480 1)) = 2047 /\
  fst (map_y plain_dev 240 (init_state 800 480 1)) = 240.
Proof.
  split; [| split].
  - apply (proj1 (coordinate_mapper_contract AxisX (mt_panel 0 4095) 400
                    (init_state 0 0 1))).
    reflexivity.
  - apply (proj1 (proj2 (coordinate_mapper_contract AxisX (mt_panel 0 4095) 400
                           (init_state 800 480 1))) (mkAbs 0 4095)).
    + simpl. lia.
    + left. reflexivity.
    + vm_compute. split; discriminate.
  - apply (proj2 (proj2 (coordinate_mapper_contract AxisY plain_dev 240
                           (init_state 800 480 1))));
      reflexivity.
Defined.

(** C1 as stated fails: with [--map 800 480] on a panel whose axis range is
    0..4095, the coordinate 500000000 rescales to 2559375000, which is not
    an [int]; the function returns -1735592296. *)
Lemma coordinate_mapper_overflow :
  is_int 500000000 /\
  ui_w (init_state 800 480 1) <> 0 /\
  absinfo (mt_panel 0 4095) ABS_MT_POSITION_X = Some (mkAbs 0 4095) /\
  fst (map_x (mt_panel 0 4095) 500000000 (init_state 800 480 1)) = -1735592296 /\
  fst (map_x (mt_panel 0 4095) 500000000 (init_state 800 480 1)) <>
    500000000 * (4095 - 0) ÷ 800 + 0.
Proof.
  repeat split; try (vm_compute; congruence).
Qed.

(** C7 (amended): for an axis range with [min <= max], a positive UI
    dimension and coordinates [x1 < x2] whose rescaled values lie in the
    range of [int], the mapper is monotone. *)
Theorem map_monotone (ax : axis) (fd : device) (s : state) (a : input_absinfo)
    (x1 x2 : Z) :
  first_absinfo fd (mt_code ax) (st_code ax) = Some a ->
  minimum a <= maximum a ->
  0 < ui_dim ax s ->
  x1 < x2 ->
  INT_MIN <= rescale_spec x1 (ui_dim ax s) (minimum a) (maximum a) ->
  rescale_spec x2 (ui_dim ax s) (minimum a) (maximum a) <= INT_MAX ->
  fst (map_axis ax fd x1 s) <= fst (map_axis ax fd x2 s).
Proof.
  intros Ha Hr Hd Hx Hlo Hhi.
  assert (Hm : rescale_spec x1 (ui_dim ax s) (minimum a) (maximum a) <=
               rescale_spec x2 (ui_dim ax s) (minimum a) (maximum a)).
  { unfold rescale_spec. apply Z.add_le_mono_r.
    apply Z.quot_le_mono; [exact Hd | nia]. }
  rewrite !(map_axis_rescaled ax fd _ s a) by (auto; lia).
  rewrite !to_int_id by (unfold is_int; lia).
  exact Hm.
Qed.

Lemma map_monotone_witness :
  fst (map_x (mt_panel 0 4095) 100 (init_state 800 480 1)) <=
  fst (map_x (mt_panel 0 4095) 101 (init_state 800 480 1)).
Proof.
  apply (map_monotone AxisX (mt_panel 0 4095) (init_state 800 480 1) (mkAbs 0 4095)
           100 101).
  - reflexivity.
  - simpl. lia.
  - simpl. lia.
  - lia.
  - vm_compute. discriminate.
  - vm_compute. discriminate.
Defined.

(** C7 as stated fails in three ways: a rescaled value that leaves the range
    of [int] wraps around; an axis reported with [max < min] reverses the
    order; so does a negative UI dimension, which [--map] accepts. *)
Lemma map_not_monotone :
  (0 < 500000000 /\
   fst (map_x (mt_panel 0 4095) 0 (init_state 800 480 1)) >
   fst (map_x (mt_panel 0 4095) 500000000 (init_state 800 480 1))) /\
  (0 < 800 /\
   fst (map_x (mt_panel 4095 0) 0 (init_state 800 480 1)) >
   fst (map_x (mt_panel 4095 0) 800 (init_state 800 480 1))) /\
  (0 < 800 /\
   fst (map_x (mt_panel 0 4095) 0 (init_state (-800) 480 1)) >
   fst (map_x (mt_panel 0 4095) 800 (init_state (-800) 480 1))).
Proof.
  repeat split.
Qed.

(** ** Running the state-passing functions *)

Lemma trace_emitted {A} (m : M A) s l :
  trace (snd (m s)) = trace s ++ l -> emitted m s = l.
Proof.
  unfold emitted. intros ->. apply drop_app_length.
Qed.

Lemma map_x_run fd l s : map_x fd l s = (mapped AxisX fd s l, s).
Proof.
  unfold mapped. rewrite <- (map_axis_state AxisX fd l s) at 3.
  simpl. destruct (map_x fd l s); reflexivity.
Qed.

Lemma map_y_run fd l s : map_y fd l s = (mapped AxisY fd s l, s).
Proof.
  unfold mapped. rewrite <- (map_axis_state AxisY fd l s) at 3.
  simpl. destruct (map_y fd l s); reflexivity.
Qed.

(** The mapper reads [ui_w] and [ui_h] only. *)
Lemma mapped_ext ax fd s s' l :
  ui_w s' = ui_w s -> ui_h s' = ui_h s -> mapped ax fd s' l = mapped ax fd s l.
Proof.
  intros Hw Hh. destruct ax; unfold mapped, map_axis, map_x, map_y, bind, gets;
    simpl; rewrite ?Hw, ?Hh; repeat (case_match; simpl); reflexivity.
Qed.

#[local] Arguments map_x : simpl never.
#[local] Arguments map_y : simpl never.

Ltac unfold_ops :=
  unfold btn_touch_set, syn_mt, syn, msleep, orelse, is_err, bind, gets, modify,
    ret, write_event in *.

(** Case analysis on the outcome of each [write], in program order; [tac]
    closes the branches it can. *)
Ltac run_writes_with tac :=
  repeat match goal with
         | |- context [write_ok ?fd ?n] =>
             destruct (write_ok fd n) eqn:?; cbn; try solve [tac]
         end.

(** [do_tap] fails, or it succeeds and has performed the whole sequence. *)
Lemma do_tap_cases fd lx ly hold_ms s :
  fst (do_tap fd lx ly hold_ms s) = RS_ERR \/
  (fst (do_tap fd lx ly hold_ms s) = RS_OK /\
   trace (snd (do_tap fd lx ly hold_ms s)) =
   trace s ++ tap_actions (mapped AxisX fd s lx) (mapped AxisY fd s ly) hold_ms).
Proof.
  unfold do_tap, tap_actions, sleep_actions. unfold_ops.
  rewrite map_x_run. cbn. rewrite map_y_run. cbn.
  generalize (mapped AxisX fd s lx) (mapped AxisY fd s ly). intros x y.
  run_writes_with ltac:(left; reflexivity).
  destruct (0 <? hold_ms); cbn; run_writes_with ltac:(left; reflexivity);
    right; (split; [reflexivity|]); rewrite <- ?app_assoc; reflexivity.
Qed.

Lemma do_tap_ok fd lx ly hold_ms s :
  fst (do_tap fd lx ly hold_ms s) = RS_OK ->
  trace (snd (do_tap fd lx ly hold_ms s)) =
  trace s ++ tap_actions (mapped AxisX fd s lx) (mapped AxisY fd s ly) hold_ms.
Proof.
  intros H. destruct (do_tap_cases fd lx ly hold_ms s) as [E | [_ E]];
    [rewrite E in H; discriminate | exact E].
Qed.

#[local] Arguments mapped : simpl never.

Lemma same_globals_refl s : same_globals s s.
Proof. repeat split. Qed.

Lemma same_globals_trans s1 s2 s3 :
  same_globals s1 s2 -> same_globals s2 s3 -> same_globals s1 s3.
Proof. unfold same_globals. intuition congruence. Qed.

Ltac solve_globals := unfold same_globals; cbn; repeat split; reflexivity.

Lemma do_tap_globals fd lx ly hold_ms s :
  same_globals s (snd (do_tap fd lx ly hold_ms s)).
Proof.
  unfold do_tap. unfold_ops.
  rewrite map_x_run. cbn. rewrite map_y_run. cbn.
  run_writes_with solve_globals.
  destruct (0 <? hold_ms); cbn; run_writes_with solve_globals; solve_globals.
Qed.

(** ** The movement loop of a swipe *)

Lemma swipe_points_S x1 y1 x2 y2 steps i n :
  swipe_points x1 y1 x2 y2 steps i (S n) =
  swipe_point x1 y1 x2 y2 steps i :: swipe_points x1 y1 x2 y2 steps (i + 1) n.
Proof.
  unfold swipe_points. rewrite seqZ_cons by lia. cbn [fmap list_fmap].
  do 3 f_equal; lia.
Qed.

Lemma movement_actions_ext fd s s' pause pts :
  ui_w s' = ui_w s -> ui_h s' = ui_h s ->
  movement_actions fd s' pause pts = movement_actions fd s pause pts.
Proof.
  intros Hw Hh. unfold movement_actions. f_equal.
  apply list_fmap_ext. intros _ p _. unfold step_actions.
  rewrite !(mapped_ext _ fd s s') by assumption. reflexivity.
Qed.

Lemma movement_actions_cons fd s pause p pts :
  movement_actions fd s pause (p :: pts) =
  step_actions fd s pause p ++ movement_actions fd s pause pts.
Proof. reflexivity. Qed.

(** Whatever the device does, the loop leaves the globals alone and adds
    neither a multi-touch position nor a multi-touch report marker. *)
Lemma swipe_loop_any fd x1 y1 x2 y2 duration_ms steps n :
  forall i s,
    same_globals s (snd (swipe_loop n fd x1 y1 x2 y2 duration_ms steps i s)) /\
    exists l,
      trace (snd (swipe_loop n fd x1 y1 x2 y2 duration_ms steps i s)) =
        trace s ++ l /\
      Forall (fun a => is_mt_report a = false) l.
Proof.
  induction n as [|n IH]; intros i s.
  - cbn. split; [solve_globals|].
    exists []. rewrite app_nil_r. split; [reflexivity | constructor].
  - cbn [swipe_loop]. unfold_ops.
    rewrite map_x_run. cbn.
    destruct (write_ok fd (attempts s)) eqn:W1; cbn.
    2:{ split; [solve_globals|]. exists []. rewrite app_nil_r.
        split; [reflexivity | constructor]. }
    rewrite map_y_run. cbn.
    destruct (write_ok fd (S (attempts s))) eqn:W2; cbn.
    2:{ split; [solve_globals|]. eexists. split; [reflexivity|].
        repeat constructor. }
    destruct (write_ok fd (S (S (attempts s)))) eqn:W3; cbn.
    2:{ split; [solve_globals|]. eexists.
        split; [rewrite <- app_assoc; reflexivity|]. repeat constructor. }
    destruct (0 <? duration_ms `quot` steps); cbn;
      match goal with
      | |- context [swipe_loop n _ _ _ _ _ _ _ _ ?st] =>
          destruct (IH (i + 1) st) as [Hg (l & Hl & Hf)]
      end;
      (split; [eapply same_globals_trans; [|exact Hg]; solve_globals|]);
      rewrite Hl; cbn; eexists;
      (split; [rewrite <- !app_assoc; reflexivity|]);
      repeat (constructor; [reflexivity|]); exact Hf.
Qed.

(** The loop returns from the function with [RS_ERR], or it runs to its end
    and has performed every step. *)
Lemma swipe_loop_cases fd x1 y1 x2 y2 duration_ms steps n :
  forall i s,
    fst (swipe_loop n fd x1 y1 x2 y2 duration_ms steps i s) = RS_ERR \/
    (fst (swipe_loop n fd x1 y1 x2 y2 duration_ms steps i s) = RS_OK /\
     trace (snd (swipe_loop n fd x1 y1 x2 y2 duration_ms steps i s)) =
     trace s ++
     movement_actions fd s (duration_ms ÷ steps)
       (swipe_points x1 y1 x2 y2 steps i n)).
Proof.
  induction n as [|n IH]; intros i s.
  - right. cbn. rewrite app_nil_r. split; reflexivity.
  - rewrite swipe_points_S, movement_actions_cons.
    unfold step_actions, sleep_actions, swipe_point. cbn [fst snd].
    cbn [swipe_loop]. unfold_ops.
    rewrite map_x_run. cbn.
    destruct (write_ok fd (attempts s)) eqn:W1; cbn; [|left; reflexivity].
    rewrite map_y_run. cbn.
    rewrite (mapped_ext AxisY fd s) by reflexivity.
    destruct (write_ok fd (S (attempts s))) eqn:W2; cbn; [|left; reflexivity].
    destruct (write_ok fd (S (S (attempts s)))) eqn:W3; cbn; [|left; reflexivity].
    destruct (0 <? duration_ms `quot` steps); cbn;
      match goal with
      | |- context [swipe_loop n _ _ _ _ _ _ _ _ ?st] =>
          destruct (IH (i + 1) st) as [E | [E Ht]];
            [left; exact E | right; split; [exact E|]];
            rewrite Ht, (movement_actions_ext fd s st) by reflexivity
      end;
      cbn; rewrite <- !app_assoc; reflexivity.
Qed.

(** [do_swipe] fails, or it succeeds and has performed the whole sequence:
    the tap, the steps, the lift. *)
Lemma do_swipe_cases fd x1 y1 x2 y2 duration_ms steps s :
  fst (do_swipe fd x1 y1 x2 y2 duration_ms steps s) = RS_ERR \/
  (fst (do_swipe fd x1 y1 x2 y2 duration_ms steps s) = RS_OK /\
   trace (snd (do_swipe fd x1 y1 x2 y2 duration_ms steps s)) =
   trace s ++ swipe_actions fd s x1 y1 x2 y2 duration_ms steps).
Proof.
  destruct (do_swipe fd x1 y1 x2 y2 duration_ms steps s) as [r s'] eqn:E.
  cbn [fst snd]. revert E.
  unfold do_swipe, swipe_actions. fold (effective_steps steps).
  generalize (effective_steps steps). intros n.
  unfold is_err at 1. unfold bind at 1. unfold bind at 1.
  destruct (do_tap_cases fd x1 y1 0 s) as [E1 | [E1 T1]];
    pose proof (do_tap_globals fd x1 y1 0 s) as (Hw & Hh & _);
    destruct (do_tap fd x1 y1 0 s) as [r1 s1]; cbn [fst snd] in *; subst r1;
    cbn; [intros [= <- _]; left; reflexivity|].
  unfold bind at 1.
  destruct (swipe_loop_cases fd x1 y1 x2 y2 duration_ms n (Z.to_nat n) 1 s1)
    as [E2 | [E2 T2]];
    destruct (swipe_loop (Z.to_nat n) fd x1 y1 x2 y2 duration_ms n 1 s1)
      as [r2 s2]; cbn [fst snd] in *; subst r2; cbn;
    [intros [= <- _]; left; reflexivity|].
  rewrite (movement_actions_ext fd s s1) in T2 by assumption.
  unfold_ops. cbn.
  run_writes_with ltac:(intros [= <- _]; left; reflexivity).
  intros [= <- <-]. right. split; [reflexivity|]. cbn. rewrite T2, T1.
  unfold lift_actions. rewrite <- !app_assoc. reflexivity.
Qed.

(** ** Multi-touch operations *)

Lemma mt_down_out_of_bounds MAX_SLOTS fd slot lx ly s :
  slot < 0 \/ MAX_SLOTS <= slot ->
  mt_down MAX_SLOTS fd slot lx ly s = (RS_ERR, s).
Proof.
  intros H. unfold mt_down.
  replace ((slot <? 0) || (slot >=? MAX_SLOTS)) with true; [reflexivity|].
  symmetry. apply orb_true_iff. rewrite Z.ltb_lt, Z.geb_le. lia.
Qed.

Lemma in_bounds_test MAX_SLOTS slot :
  0 <= slot < MAX_SLOTS -> (slot <? 0) || (slot >=? MAX_SLOTS) = false.
Proof.
  intros H. apply orb_false_iff. rewrite Z.ltb_ge, Z.geb_leb, Z.leb_gt. lia.
Qed.

(** The tracker side of [mt_down], whatever the device does: the ID is
    taken from the counter and stored in the slot, and the counter moves
    on. *)
Lemma mt_down_tracker MAX_SLOTS fd slot lx ly s :
  0 <= slot < MAX_SLOTS ->
  let s' := snd (mt_down MAX_SLOTS fd slot lx ly s) in
  slot_tracking s' = <[Z.to_nat slot := next_tracking_id s]> (slot_tracking s) /\
  next_tracking_id s' = next_id (next_tracking_id s) /\
  ui_w s' = ui_w s /\ ui_h s' = ui_h s.
Proof.
  intros Hb. unfold mt_down. rewrite (in_bounds_test _ _ Hb).
  unfold_ops. rewrite map_x_run. cbn. rewrite map_y_run. cbn.
  unfold next_id.
  destruct (int_add (next_tracking_id s) 1 >? TRACKING_ID_MAX); cbn;
    destruct (active_touches s =? 0); cbn;
    run_writes_with ltac:(repeat split); repeat split.
Qed.

Ltac failed_write :=
  match goal with
  | H : write_ok ?fd ?k = false |- write_failed ?fd _ _ =>
      exists k; split; [cbn; lia | exact H]
  end.

(** An in-bounds [mt_down] fails because a write failed, or it succeeds,
    has counted the touch and has written the whole sequence. *)
Lemma mt_down_cases MAX_SLOTS fd slot lx ly s :
  0 <= slot < MAX_SLOTS ->
  let r := fst (mt_down MAX_SLOTS fd slot lx ly s) in
  let s' := snd (mt_down MAX_SLOTS fd slot lx ly s) in
  (r = RS_ERR /\ write_failed fd s s') \/
  (r = RS_OK /\
   active_touches s' = int_add (active_touches s) 1 /\
   trace s' = trace s ++
     mt_down_actions (active_touches s =? 0) slot (next_tracking_id s)
       (mapped AxisX fd s lx) (mapped AxisY fd s ly)).
Proof.
  intros Hb. unfold mt_down. rewrite (in_bounds_test _ _ Hb).
  unfold_ops. rewrite map_x_run. cbn. rewrite map_y_run. cbn.
  generalize (mapped AxisX fd s lx) (mapped AxisY fd s ly). intros x y.
  unfold mt_down_actions, touch_signal_actions.
  destruct (int_add (next_tracking_id s) 1 >? TRACKING_ID_MAX); cbn;
    destruct (active_touches s =? 0); cbn;
    run_writes_with ltac:(left; split; [reflexivity | failed_write]);
    right; (split; [reflexivity|]); (split; [reflexivity|]);
    rewrite <- ?app_assoc; reflexivity.
Qed.

Lemma mt_move_rejected MAX_SLOTS fd slot lx ly s :
  slot < 0 \/ MAX_SLOTS <= slot \/ slot_at s slot = 0 ->
  mt_move MAX_SLOTS fd slot lx ly s = (RS_ERR, s).
Proof.
  intros H. unfold mt_move. unfold_ops.
  destruct (slot <? 0) eqn:E1; [reflexivity|].
  destruct (slot >=? MAX_SLOTS) eqn:E2; [reflexivity|].
  destruct (slot_at s slot =? 0) eqn:E3; [reflexivity|].
  exfalso. apply Z.ltb_ge in E1. rewrite Z.geb_leb in E2.
  apply Z.leb_gt in E2. apply Z.eqb_neq in E3. lia.
Qed.

Lemma mt_up_rejected MAX_SLOTS fd slot s :
  slot < 0 \/ MAX_SLOTS <= slot \/ slot_at s slot = 0 ->
  mt_up MAX_SLOTS fd slot s = (RS_ERR, s).
Proof.
  intros H. unfold mt_up. unfold_ops.
  destruct (slot <? 0) eqn:E1; [reflexivity|].
  destruct (slot >=? MAX_SLOTS) eqn:E2; [reflexivity|].
  destruct (slot_at s slot =? 0) eqn:E3; [reflexivity|].
  exfalso. apply Z.ltb_ge in E1. rewrite Z.geb_leb in E2.
  apply Z.leb_gt in E2. apply Z.eqb_neq in E3. lia.
Qed.

Lemma active_slot_tests MAX_SLOTS slot s :
  0 <= slot < MAX_SLOTS -> slot_at s slot <> 0 ->
  (slot <? 0) = false /\ (slot >=? MAX_SLOTS) = false /\
  (slot_at s slot =? 0) = false.
Proof.
  intros Hb Ha. rewrite Z.ltb_ge, Z.geb_leb, Z.leb_gt, Z.eqb_neq. lia.
Qed.

(** [mt_move] never touches the globals. *)
Lemma mt_move_globals MAX_SLOTS fd slot lx ly s :
  same_globals s (snd (mt_move MAX_SLOTS fd slot lx ly s)).
Proof.
  unfold mt_move. unfold_ops.
  destruct (slot <? 0); [solve_globals|].
  destruct (slot >=? MAX_SLOTS); [solve_globals|].
  destruct (slot_at s slot =? 0); [solve_globals|].
  rewrite map_x_run. cbn. rewrite map_y_run. cbn.
  run_writes_with solve_globals; solve_globals.
Qed.

Lemma mt_move_cases MAX_SLOTS fd slot lx ly s :
  0 <= slot < MAX_SLOTS -> slot_at s slot <> 0 ->
  let r := fst (mt_move MAX_SLOTS fd slot lx ly s) in
  let s' := snd (mt_move MAX_SLOTS fd slot lx ly s) in
  (r = RS_ERR /\ write_failed fd s s') \/
  (r = RS_OK /\
   trace s' = trace s ++
     mt_move_actions slot (mapped AxisX fd s lx) (mapped AxisY fd s ly)).
Proof.
  intros Hb Ha. destruct (active_slot_tests _ _ _ Hb Ha) as (E1 & E2 & E3).
  unfold mt_move. unfold_ops. rewrite E1, E2, E3.
  rewrite map_x_run. cbn. rewrite map_y_run. cbn.
  run_writes_with ltac:(left; split; [reflexivity | failed_write]).
  right. split; [reflexivity|]. rewrite <- ?app_assoc. reflexivity.
Qed.

(** The tracker side of [mt_up], whatever the device does: the counter of
    IDs stays, and the slot table stays or has the slot cleared. *)
Lemma mt_up_tracker MAX_SLOTS fd slot s :
  let s' := snd (mt_up MAX_SLOTS fd slot s) in
  next_tracking_id s' = next_tracking_id s /\
  ui_w s' = ui_w s /\ ui_h s' = ui_h s /\
  (slot_tracking s' = slot_tracking s \/
   slot_tracking s' = <[Z.to_nat slot := 0]> (slot_tracking s)).
Proof.
  unfold mt_up. unfold_ops.
  destruct (slot <? 0); [cbn; auto|].
  destruct (slot >=? MAX_SLOTS); [cbn; auto|].
  destruct (slot_at s slot =? 0); [cbn; auto|]. cbn.
  run_writes_with ltac:(auto).
  destruct (int_sub (active_touches s) 1 <=? 0); cbn;
    run_writes_with ltac:(auto); auto.
Qed.

(** [mt_up] on an active slot fails because a write failed, or it succeeds,
    has cleared the slot, has counted the touch off and has written the
    whole sequence. *)
Lemma mt_up_cases MAX_SLOTS fd slot s :
  0 <= slot < MAX_SLOTS -> slot_at s slot <> 0 ->
  let r := fst (mt_up MAX_SLOTS fd slot s) in
  let s' := snd (mt_up MAX_SLOTS fd slot s) in
  let a := int_sub (active_touches s) 1 in
  (r = RS_ERR /\ write_failed fd s s') \/
  (r = RS_OK /\
   slot_tracking s' = <[Z.to_nat slot := 0]> (slot_tracking s) /\
   active_touches s' = (if a <=? 0 then 0 else a) /\
   trace s' = trace s ++ mt_up_actions (a <=? 0) slot).
Proof.
  intros Hb Ha. destruct (active_slot_tests _ _ _ Hb Ha) as (E1 & E2 & E3).
  unfold mt_up. unfold_ops. rewrite E1, E2, E3. cbn.
  unfold mt_up_actions, touch_signal_actions.
  run_writes_with ltac:(left; split; [reflexivity | failed_write]).
  destruct (int_sub (active_touches s) 1 <=? 0); cbn;
    run_writes_with ltac:(left; split; [reflexivity | failed_write]);
    right; repeat (split; [reflexivity|]); rewrite <- ?app_assoc; reflexivity.
Qed.

(** ** Frame commits *)

Lemma commits_app l1 l2 : commits (l1 ++ l2) = (commits l1 + commits l2)%nat.
Proof.
  induction l1 as [|a l1 IH]; [reflexivity|].
  cbn. destruct (is_commit a); rewrite IH; reflexivity.
Qed.

Lemma commits_sleep ms : commits (sleep_actions ms) = O.
Proof. unfold sleep_actions. destruct (0 <? ms); reflexivity. Qed.

Lemma commits_tap x y hold_ms : commits (tap_actions x y hold_ms) = 2%nat.
Proof.
  unfold tap_actions. rewrite !commits_app, commits_sleep. reflexivity.
Qed.

Lemma commits_movement fd s pause pts :
  commits (movement_actions fd s pause pts) = length pts.
Proof.
  induction pts as [|p pts IH]; [reflexivity|].
  rewrite movement_actions_cons, commits_app, IH.
  unfold step_actions. rewrite commits_app, commits_sleep. reflexivity.
Qed.

Lemma effective_steps_pos steps : 1 <= effective_steps steps.
Proof. unfold effective_steps. destruct (steps <? 1) eqn:E; lia. Qed.

Lemma commits_swipe fd s x1 y1 x2 y2 duration_ms steps :
  Z.of_nat (commits (swipe_actions fd s x1 y1 x2 y2 duration_ms steps)) =
  effective_steps steps + 3.
Proof.
  pose proof (effective_steps_pos steps).
  unfold swipe_actions, swipe_points.
  rewrite !commits_app, commits_tap, commits_movement.
  rewrite length_fmap, length_seqZ. cbn. lia.
Qed.

(** C2 (amended): on the success path, tap and longpress emit 2 frame
    commits; swipe emits [steps + 3], where a step count below 1 counts as
    10 (the step count is below [INT_MAX], so that the loop counter stays
    an [int]); mt-move emits 1; mt-down emits 1, and 2 when no touch was
    active before it; mt-up emits 1, and 2 when no touch is active after
    it. *)
Theorem commit_counts :
  (forall fd lx ly hold_ms s,
     fst (do_tap fd lx ly hold_ms s) = RS_OK ->
     commits (emitted (do_tap fd lx ly hold_ms) s) = 2%nat) /\
  (forall fd lx ly hold_ms s,
     fst (do_longpress fd lx ly hold_ms s) = RS_OK ->
     commits (emitted (do_longpress fd lx ly hold_ms) s) = 2%nat) /\
  (forall fd x1 y1 x2 y2 duration_ms steps s,
     steps < INT_MAX ->
     fst (do_swipe fd x1 y1 x2 y2 duration_ms steps s) = RS_OK ->
     Z.of_nat (commits (emitted (do_swipe fd x1 y1 x2 y2 duration_ms steps) s)) =
     (if steps <? 1 then 10 else steps) + 3) /\
  (forall MAX_SLOTS fd slot lx ly s,
     1 < MAX_SLOTS ->
     fst (mt_down MAX_SLOTS fd slot lx ly s) = RS_OK ->
     commits (emitted (mt_down MAX_SLOTS fd slot lx ly) s) =
     if active_touches s =? 0 then 2%nat else 1%nat) /\
  (forall MAX_SLOTS fd slot lx ly s,
     1 < MAX_SLOTS ->
     fst (mt_move MAX_SLOTS fd slot lx ly s) = RS_OK ->
     commits (emitted (mt_move MAX_SLOTS fd slot lx ly) s) = 1%nat) /\
  (forall MAX_SLOTS fd slot s,
     1 < MAX_SLOTS ->
     fst (mt_up MAX_SLOTS fd slot s) = RS_OK ->
     commits (emitted (mt_up MAX_SLOTS fd slot) s) =
     if active_touches (snd (mt_up MAX_SLOTS fd slot s)) =? 0
     then 2%nat else 1%nat).
Proof.
  assert (Htap : forall fd lx ly hold_ms s,
             fst (do_tap fd lx ly hold_ms s) = RS_OK ->
             commits (emitted (do_tap fd lx ly hold_ms) s) = 2%nat).
  { intros fd lx ly hold_ms s H.
    rewrite (trace_emitted _ _ _ (do_tap_ok _ _ _ _ _ H)). apply commits_tap. }
  split; [exact Htap|]. split; [exact Htap|]. split; [|split; [|split]].
  - intros fd x1 y1 x2 y2 duration_ms steps s _ H.
    destruct (do_swipe_cases fd x1 y1 x2 y2 duration_ms steps s) as [E | [_ T]];
      [rewrite E in H; discriminate H|].
    rewrite (trace_emitted _ _ _ T). apply commits_swipe.
  - intros MAX_SLOTS fd slot lx ly s _ H.
    assert (Hb : 0 <= slot < MAX_SLOTS).
    { destruct (Z_lt_dec slot 0) as [Hl|Hl];
        [rewrite mt_down_out_of_bounds in H by lia; discriminate|].
      destruct (Z_le_dec MAX_SLOTS slot) as [Hu|Hu];
        [rewrite mt_down_out_of_bounds in H by lia; discriminate|].
      lia. }
    destruct (mt_down_cases MAX_SLOTS fd slot lx ly s Hb) as [[E _] | (_ & _ & T)];
      [rewrite E in H; discriminate H|].
    rewrite (trace_emitted _ _ _ T).
    destruct (active_touches s =? 0); reflexivity.
  - intros MAX_SLOTS fd slot lx ly s _ H.
    assert (Hb : 0 <= slot < MAX_SLOTS /\ slot_at s slot <> 0).
    { destruct (Z_lt_dec slot 0) as [Hl|Hl];
        [rewrite mt_move_rejected in H by lia; discriminate|].
      destruct (Z_le_dec MAX_SLOTS slot) as [Hu|Hu];
        [rewrite mt_move_rejected in H by lia; discriminate|].
      destruct (Z.eq_dec (slot_at s slot) 0) as [Hz|Hz];
        [rewrite mt_move_rejected in H by lia; discriminate|].
      lia. }
    destruct Hb as [Hb Ha].
    destruct (mt_move_cases MAX_SLOTS fd slot lx ly s Hb Ha) as [[E _] | (_ & T)];
      [rewrite E in H; discriminate H|].
    rewrite (trace_emitted _ _ _ T). reflexivity.
  - intros MAX_SLOTS fd slot s _ H.
    assert (Hb : 0 <= slot < MAX_SLOTS /\ slot_at s slot <> 0).
    { destruct (Z_lt_dec slot 0) as [Hl|Hl];
        [rewrite mt_up_rejected in H by lia; discriminate|].
      destruct (Z_le_dec MAX_SLOTS slot) as [Hu|Hu];
        [rewrite mt_up_rejected in H by lia; discriminate|].
      destruct (Z.eq_dec (slot_at s slot) 0) as [Hz|Hz];
        [rewrite mt_up_rejected in H by lia; discriminate|].
      lia. }
    destruct Hb as [Hb Ha].
    destruct (mt_up_cases MAX_SLOTS fd slot s Hb Ha)
      as [[E _] | (_ & _ & Hact & T)];
      [rewrite E in H; discriminate H|].
    rewrite (trace_emitted _ _ _ T), Hact.
    destruct (int_sub (active_touches s) 1 <=? 0) eqn:Ele; [reflexivity|].
    apply Z.leb_gt in Ele.
    destruct (int_sub (active_touches s) 1 =? 0) eqn:Ez;
      [apply Z.eqb_eq in Ez; lia | reflexivity].
Qed.

Lemma commit_counts_witness :
  commits (emitted (do_tap plain_dev 200 150 100) (init_state 0 0 1)) = 2%nat /\
  commits (emitted (do_longpress plain_dev 300 200 2000) (init_state 0 0 1)) = 2%nat /\
  Z.of_nat (commits (emitted (do_swipe plain_dev 100 100 400 300 500 20)
                       (init_state 0 0 1))) = 20 + 3 /\
  commits (emitted (mt_down 2 plain_dev 0 150 150) (init_state 0 0 2)) = 2%nat /\
  commits (emitted (mt_move 2 plain_dev 0 155 153)
             (snd (mt_down 2 plain_dev 0 150 150 (init_state 0 0 2)))) = 1%nat /\
  commits (emitted (mt_up 2 plain_dev 0)
             (snd (mt_down 2 plain_dev 0 150 150 (init_state 0 0 2)))) = 2%nat.
Proof.
  destruct commit_counts as (H1 & H2 & H3 & H4 & H5 & H6).
  split; [apply H1; vm_compute; reflexivity|].
  split; [apply H2; vm_compute; reflexivity|].
  split; [apply (H3 plain_dev 100 100 400 300 500 20); vm_compute; reflexivity|].
  split; [apply (H4 2 plain_dev 0 150 150 (init_state 0 0 2));
          [lia | vm_compute; reflexivity]|].
  split; [apply H5; [lia | vm_compute; reflexivity]|].
  apply (H6 2 plain_dev 0); [lia | vm_compute; reflexivity].
Defined.

(** C2 as stated fails: a swipe of 20 steps emits 23 frame commits, not 22,
    and the first mt-down of a run emits 2, not 1. *)
Lemma commit_counts_as_stated_fail :
  fst (do_swipe plain_dev 100 100 400 300 500 20 (init_state 0 0 1)) = RS_OK /\
  Z.of_nat (commits (emitted (do_swipe plain_dev 100 100 400 300 500 20)
                       (init_state 0 0 1))) <> 20 + 2 /\
  fst (mt_down 2 plain_dev 0 150 150 (init_state 0 0 2)) = RS_OK /\
  commits (emitted (mt_down 2 plain_dev 0 150 150) (init_state 0 0 2)) <> 1%nat.
Proof.
  repeat split; vm_compute; congruence.
Qed.

(** ** Swipe *)

(** C3: [swipe 100 100 400 300 500 20], on the success path, emits the
    zero-hold tap at the start point (2 frame commits), then the 20
    interpolated points, each a pair of positions followed by one frame
    commit, then the lift with one frame commit: 23 frame commits, and the
    20th interpolated point is (400, 300). *)
Theorem swipe_scenario (fd : device) (s : state) :
  fst (do_swipe fd 100 100 400 300 500 20 s) = RS_OK ->
  let pts := swipe_points 100 100 400 300 20 1 20 in
  emitted (do_swipe fd 100 100 400 300 500 20) s =
    tap_actions (mapped AxisX fd s 100) (mapped AxisY fd s 100) 0 ++
    movement_actions fd s 25 pts ++
    lift_actions /\
  commits (tap_actions (mapped AxisX fd s 100) (mapped AxisY fd s 100) 0) = 2%nat /\
  length pts = 20%nat /\
  commits (movement_actions fd s 25 pts) = 20%nat /\
  commits lift_actions = 1%nat /\
  commits (emitted (do_swipe fd 100 100 400 300 500 20) s) = 23%nat /\
  pts !! 19%nat = Some (400, 300) /\
  pts = [(115, 110); (130, 120); (145, 130); (160, 140); (175, 150);
         (190, 160); (205, 170); (220, 180); (235, 190); (250, 200);
         (265, 210); (280, 220); (295, 230); (310, 240); (325, 250);
         (340, 260); (355, 270); (370, 280); (385, 290); (400, 300)].
Proof.
  intros H pts.
  assert (Hpts : pts =
    [(115, 110); (130, 120); (145, 130); (160, 140); (175, 150);
     (190, 160); (205, 170); (220, 180); (235, 190); (250, 200);
     (265, 210); (280, 220); (295, 230); (310, 240); (325, 250);
     (340, 260); (355, 270); (370, 280); (385, 290); (400, 300)])
    by (vm_compute; reflexivity).
  destruct (do_swipe_cases fd 100 100 400 300 500 20 s) as [E | [_ T]];
    [rewrite E in H; discriminate H|].
  apply trace_emitted in T. rewrite T.
  assert (Hsw : swipe_actions fd s 100 100 400 300 500 20 =
                tap_actions (mapped AxisX fd s 100) (mapped AxisY fd s 100) 0 ++
                movement_actions fd s 25 pts ++ lift_actions) by reflexivity.
  rewrite Hsw.
  split; [reflexivity|].
  split; [apply commits_tap|].
  split; [rewrite Hpts; reflexivity|].
  split; [rewrite commits_movement, Hpts; reflexivity|].
  split; [reflexivity|].
  split; [rewrite !commits_app, commits_tap, commits_movement, Hpts; reflexivity|].
  split; [rewrite Hpts; reflexivity | exact Hpts].
Qed.

Lemma swipe_scenario_witness :
  commits (emitted (do_swipe plain_dev 100 100 400 300 500 20) (init_state 0 0 1))
    = 23%nat /\
  swipe_points 100 100 400 300 20 1 20 !! 19%nat = Some (400, 300).
Proof.
  assert (H : fst (do_swipe plain_dev 100 100 400 300 500 20 (init_state 0 0 1))
              = RS_OK) by (vm_compute; reflexivity).
  destruct (swipe_scenario plain_dev (init_state 0 0 1) H)
    as (_ & _ & _ & _ & _ & H23 & H20 & _).
  split; [exact H23 | exact H20].
Defined.

(** C8: longpress performs exactly what tap performs with the same
    arguments: the same actions in the same order, the same result, the
    same final state. *)
Theorem longpress_is_tap (fd : device) (lx ly hold_ms : Z) (s : state) :
  fst (do_longpress fd lx ly hold_ms s) = fst (do_tap fd lx ly hold_ms s) /\
  emitted (do_longpress fd lx ly hold_ms) s = emitted (do_tap fd lx ly hold_ms) s /\
  snd (do_longpress fd lx ly hold_ms s) = snd (do_tap fd lx ly hold_ms s).
Proof.
  unfold do_longpress. repeat split.
Qed.

Lemma no_mt_report_sleep ms :
  Forall (fun a => is_mt_report a = false) (sleep_actions ms).
Proof.
  unfold sleep_actions. destruct (0 <? ms); repeat constructor.
Qed.

Lemma no_mt_report_movement fd s pause pts :
  Forall (fun a => is_mt_report a = false) (movement_actions fd s pause pts).
Proof.
  induction pts as [|p pts IH]; [constructor|].
  rewrite movement_actions_cons. apply Forall_app. split; [|exact IH].
  unfold step_actions. apply Forall_app. split;
    [repeat constructor | apply no_mt_report_sleep].
Qed.

(** C10: in every swipe the contact at the start is reported on the
    multi-touch position axes, and every interpolated position of the
    movement loop on the single-touch axes [ABS_X] and [ABS_Y]; whatever
    the device does, the loop writes no multi-touch position and no
    multi-touch report marker. *)
Theorem swipe_movement_axes (fd : device) (x1 y1 x2 y2 duration_ms steps : Z)
    (s : state) :
  (forall n i,
     Forall (fun a => is_mt_report a = false)
       (emitted (swipe_loop n fd x1 y1 x2 y2 duration_ms steps i) s)) /\
  (steps < INT_MAX ->
   fst (do_swipe fd x1 y1 x2 y2 duration_ms steps s) = RS_OK ->
   let n := if steps <? 1 then 10 else steps in
   let movement :=
     concat ((fun p => [ev EV_ABS ABS_X (mapped AxisX fd s (fst p));
                        ev EV_ABS ABS_Y (mapped AxisY fd s (snd p));
                        ev EV_SYN SYN_REPORT 0] ++
                       sleep_actions (duration_ms ÷ n))
             <$> swipe_points x1 y1 x2 y2 n 1 (Z.to_nat n)) in
   emitted (do_swipe fd x1 y1 x2 y2 duration_ms steps) s =
     [ev EV_KEY BTN_TOUCH 1; ev EV_KEY BTN_TOOL_FINGER 1;
      ev EV_ABS ABS_MT_POSITION_X (mapped AxisX fd s x1);
      ev EV_ABS ABS_MT_POSITION_Y (mapped AxisY fd s y1);
      ev EV_SYN SYN_MT_REPORT 0; ev EV_SYN SYN_REPORT 0;
      ev EV_KEY BTN_TOUCH 0; ev EV_KEY BTN_TOOL_FINGER 0;
      ev EV_SYN SYN_MT_REPORT 0; ev EV_SYN SYN_REPORT 0] ++
     movement ++
     [ev EV_KEY BTN_TOUCH 0; ev EV_SYN SYN_REPORT 0] /\
   Forall (fun a => is_mt_report a = false) movement).
Proof.
  split.
  - intros n i.
    destruct (swipe_loop_any fd x1 y1 x2 y2 duration_ms steps n i s)
      as [_ (l & Hl & Hf)].
    rewrite (trace_emitted _ _ _ Hl). exact Hf.
  - intros _ H n movement.
    destruct (do_swipe_cases fd x1 y1 x2 y2 duration_ms steps s) as [E | [_ T]];
      [rewrite E in H; discriminate H|].
    rewrite (trace_emitted _ _ _ T).
    split; [reflexivity|].
    apply (no_mt_report_movement fd s (duration_ms ÷ n)).
Qed.

Lemma swipe_movement_axes_witness :
  Forall (fun a => is_mt_report a = false)
    (emitted (swipe_loop 20 plain_dev 100 100 400 300 500 20 1) (init_state 0 0 1)) /\
  fst (do_swipe plain_dev 100 100 400 300 500 20 (init_state 0 0 1)) = RS_OK /\
  exists movement,
    emitted (do_swipe plain_dev 100 100 400 300 500 20) (init_state 0 0 1) =
      [ev EV_KEY BTN_TOUCH 1; ev EV_KEY BTN_TOOL_FINGER 1;
       ev EV_ABS ABS_MT_POSITION_X 100; ev EV_ABS ABS_MT_POSITION_Y 100;
       ev EV_SYN SYN_MT_REPORT 0; ev EV_SYN SYN_REPORT 0;
       ev EV_KEY BTN_TOUCH 0; ev EV_KEY BTN_TOOL_FINGER 0;
       ev EV_SYN SYN_MT_REPORT 0; ev EV_SYN SYN_REPORT 0] ++
      movement ++
      [ev EV_KEY BTN_TOUCH 0; ev EV_SYN SYN_REPORT 0] /\
    Forall (fun a => is_mt_report a = false) movement.
Proof.
  assert (H : fst (do_swipe plain_dev 100 100 400 300 500 20 (init_state 0 0 1))
              = RS_OK) by (vm_compute; reflexivity).
  destruct (swipe_movement_axes plain_dev 100 100 400 300 500 20 (init_state 0 0 1))
    as [Hloop Hrun].
  split; [apply Hloop|]. split; [exact H|].
  eexists. apply Hrun; [vm_compute; reflexivity | exact H].
Defined.

(** ** Rejected and failing multi-touch operations *)

(** C6: with multi-touch enabled, [mt_move] and [mt_up] on a slot that is
    out of bounds or whose tracking ID is 0 return failure, emit nothing
    and leave the whole state, slot table and active-touch count included,
    as it was. *)
Theorem inactive_slot_rejected (MAX_SLOTS : Z) (fd : device) (slot lx ly : Z)
    (s : state) :
  1 < MAX_SLOTS ->
  slot < 0 \/ MAX_SLOTS <= slot \/ slot_at s slot = 0 ->
  (fst (mt_move MAX_SLOTS fd slot lx ly s) = RS_ERR /\
   emitted (mt_move MAX_SLOTS fd slot lx ly) s = [] /\
   snd (mt_move MAX_SLOTS fd slot lx ly s) = s) /\
  (fst (mt_up MAX_SLOTS fd slot s) = RS_ERR /\
   emitted (mt_up MAX_SLOTS fd slot) s = [] /\
   snd (mt_up MAX_SLOTS fd slot s) = s).
Proof.
  intros _ H. unfold emitted.
  rewrite (mt_move_rejected MAX_SLOTS fd slot lx ly s H).
  rewrite (mt_up_rejected MAX_SLOTS fd slot s H).
  cbn [fst snd]. rewrite drop_all. repeat split.
Qed.

Lemma inactive_slot_rejected_witness :
  mt_move 2 plain_dev 1 300 150 (init_state 0 0 2) = (RS_ERR, init_state 0 0 2) /\
  mt_up 2 plain_dev 5 (init_state 0 0 2) = (RS_ERR, init_state 0 0 2).
Proof.
  split.
  - destruct (inactive_slot_rejected 2 plain_dev 1 300 150 (init_state 0 0 2))
      as [(Hr & _ & Hs) _]; [lia | right; right; reflexivity |].
    rewrite (surjective_pairing (mt_move 2 plain_dev 1 300 150 (init_state 0 0 2))).
    rewrite Hr, Hs. reflexivity.
  - destruct (inactive_slot_rejected 2 plain_dev 5 0 0 (init_state 0 0 2))
      as [_ (Hr & _ & Hs)]; [lia | right; left; lia |].
    rewrite (surjective_pairing (mt_up 2 plain_dev 5 (init_state 0 0 2))).
    rewrite Hr, Hs. reflexivity.
Defined.

Lemma slot_at_insert s slot v l :
  0 <= slot -> (Z.to_nat slot < length (slot_tracking s))%nat ->
  slot_tracking l = <[Z.to_nat slot := v]> (slot_tracking s) ->
  slot_at l slot = v.
Proof.
  intros _ Hlen Hl. unfold slot_at. rewrite Hl.
  rewrite list_lookup_insert_eq by exact Hlen. reflexivity.
Qed.

(** No write between the two states failed when each of them is known to
    have gone through. *)
Ltac no_failed_write H :=
  let k := fresh "k" in
  let Hk := fresh "Hk" in
  let Hf := fresh "Hf" in
  destruct H as (k & Hk & Hf); cbn in Hk;
  repeat match goal with
         | Hw : write_ok ?fd ?n = true |- _ =>
             destruct (Nat.eq_dec k n) as [->|];
             [rewrite Hw in Hf; discriminate Hf | clear Hw]
         end;
  lia.

(** How an in-bounds [mt_down] fails. *)
Lemma mt_down_failure MAX_SLOTS fd slot lx ly s :
  0 <= slot < MAX_SLOTS ->
  let r := fst (mt_down MAX_SLOTS fd slot lx ly s) in
  let s' := snd (mt_down MAX_SLOTS fd slot lx ly s) in
  (write_failed fd s s' -> r = RS_ERR) /\
  (write_ok fd (attempts s) = false -> r = RS_ERR /\ trace s' = trace s) /\
  (active_touches s = 0 ->
   write_ok fd (attempts s) = false \/ write_ok fd (S (attempts s)) = false ->
   r = RS_ERR /\ active_touches s' = active_touches s).
Proof.
  intros Hb. unfold mt_down. rewrite (in_bounds_test _ _ Hb).
  unfold_ops. rewrite map_x_run. cbn. rewrite map_y_run. cbn.
  destruct (int_add (next_tracking_id s) 1 >? TRACKING_ID_MAX); cbn;
    destruct (active_touches s =? 0) eqn:Ea; cbn;
    try (apply Z.eqb_neq in Ea);
    run_writes_with
      ltac:(split; [reflexivity|]; split;
            [intros; split; [reflexivity | congruence]|];
            intros ? [?|?]; solve [congruence | split; reflexivity]);
    (split; [intros Hwf; exfalso; no_failed_write Hwf|]);
    (split; [intros; congruence|]);
    intros ? [?|?]; congruence.
Qed.

(** C9: with multi-touch enabled, [mt_down] on a slot within bounds takes
    the tracking ID from the counter and stores it in the slot table
    whatever the device does, so also when the very first write fails and
    nothing has been emitted; when a write fails the operation returns
    failure with the slot marked active; when the failing write is one of
    the aggregate touch-contact signal, the active-touch count has not been
    incremented. *)
Theorem mt_down_not_atomic (MAX_SLOTS : Z) (fd : device) (slot lx ly : Z)
    (s : state) :
  1 < MAX_SLOTS ->
  0 <= slot < MAX_SLOTS ->
  length (slot_tracking s) = Z.to_nat MAX_SLOTS ->
  next_tracking_id s <> 0 ->
  let r := fst (mt_down MAX_SLOTS fd slot lx ly s) in
  let s' := snd (mt_down MAX_SLOTS fd slot lx ly s) in
  (slot_at s' slot = next_tracking_id s /\
   next_tracking_id s' = next_id (next_tracking_id s)) /\
  (write_ok fd (attempts s) = false ->
   r = RS_ERR /\ emitted (mt_down MAX_SLOTS fd slot lx ly) s = [] /\
   slot_at s' slot <> 0) /\
  (write_failed fd s s' -> r = RS_ERR /\ slot_at s' slot <> 0) /\
  (active_touches s = 0 ->
   write_ok fd (attempts s) = false \/ write_ok fd (S (attempts s)) = false ->
   r = RS_ERR /\ slot_at s' slot <> 0 /\ active_touches s' = active_touches s).
Proof.
  intros _ Hb Hlen Hid r s'.
  destruct (mt_down_tracker MAX_SLOTS fd slot lx ly s Hb) as (Ht & Hn & _).
  destruct (mt_down_failure MAX_SLOTS fd slot lx ly s Hb) as (Hf & H0 & Ha).
  fold s' in Ht, Hn, Hf, H0, Ha. fold r in Hf, H0, Ha.
  assert (Hs : slot_at s' slot = next_tracking_id s).
  { apply (slot_at_insert s); [lia | lia | exact Ht]. }
  split; [split; assumption|].
  split; [|split].
  - intros Hw. destruct (H0 Hw) as [Hr Htr].
    split; [exact Hr|]. split; [|congruence].
    apply trace_emitted. fold s'. rewrite Htr, app_nil_r. reflexivity.
  - intros Hw. split; [exact (Hf Hw) | congruence].
  - intros Hz Hw. destruct (Ha Hz Hw) as [Hr Hc].
    split; [exact Hr|]. split; [congruence | exact Hc].
Qed.

Lemma mt_down_not_atomic_witness :
  fst (mt_down 2 (flaky_dev 0) 0 150 150 (init_state 0 0 2)) = RS_ERR /\
  emitted (mt_down 2 (flaky_dev 0) 0 150 150) (init_state 0 0 2) = [] /\
  slot_at (snd (mt_down 2 (flaky_dev 0) 0 150 150 (init_state 0 0 2))) 0 <> 0 /\
  active_touches (snd (mt_down 2 (flaky_dev 0) 0 150 150 (init_state 0 0 2))) = 0.
Proof.
  destruct (mt_down_not_atomic 2 (flaky_dev 0) 0 150 150 (init_state 0 0 2))
    as (_ & H0 & _ & Ha); [lia | lia | reflexivity | discriminate |].
  destruct (H0 eq_refl) as (Hr & He & Hs).
  destruct (Ha eq_refl (or_introl eq_refl)) as (_ & _ & Hc).
  repeat split; assumption.
Defined.

(** ** Tracking IDs *)

Lemma next_id_spec n :
  1 <= n <= TRACKING_ID_MAX ->
  next_id n = (if n =? TRACKING_ID_MAX then 1 else n + 1) /\
  1 <= next_id n <= TRACKING_ID_MAX.
Proof.
  unfold next_id, int_add, TRACKING_ID_MAX. intros H.
  rewrite to_int_id by (unfold is_int, INT_MIN, INT_MAX; lia).
  destruct (n + 1 >? 1000000) eqn:E1; destruct (n =? 1000000) eqn:E2;
    rewrite ?Z.gtb_ltb, ?Z.ltb_lt, ?Z.ltb_ge, ?Z.eqb_eq, ?Z.eqb_neq in *; lia.
Qed.

(** What an operation does to the tracker, whatever the device does. *)
Lemma run_op_tracker MAX_SLOTS fd op s :
  let s' := snd (run_op MAX_SLOTS fd op s) in
  match op with
  | MtDown slot _ _ =>
      if (slot <? 0) || (slot >=? MAX_SLOTS)
      then slot_tracking s' = slot_tracking s /\
           next_tracking_id s' = next_tracking_id s
      else slot_tracking s' =
             <[Z.to_nat slot := next_tracking_id s]> (slot_tracking s) /\
           next_tracking_id s' = next_id (next_tracking_id s)
  | MtMove _ _ _ =>
      slot_tracking s' = slot_tracking s /\
      next_tracking_id s' = next_tracking_id s
  | MtUp slot =>
      (slot_tracking s' = slot_tracking s \/
       slot_tracking s' = <[Z.to_nat slot := 0]> (slot_tracking s)) /\
      next_tracking_id s' = next_tracking_id s
  end.
Proof.
  destruct op as [slot x y | slot x y | slot]; cbn [run_op].
  - destruct ((slot <? 0) || (slot >=? MAX_SLOTS)) eqn:E.
    + apply orb_true_iff in E. rewrite Z.ltb_lt, Z.geb_le in E.
      rewrite mt_down_out_of_bounds by lia. split; reflexivity.
    + apply orb_false_iff in E. rewrite Z.ltb_ge, Z.geb_leb, Z.leb_gt in E.
      destruct (mt_down_tracker MAX_SLOTS fd slot x y s) as (H1 & H2 & _);
        [lia | split; assumption].
  - destruct (mt_move_globals MAX_SLOTS fd slot x y s) as (_ & _ & H1 & H2 & _).
    split; assumption.
  - destruct (mt_up_tracker MAX_SLOTS fd slot s) as (H1 & _ & _ & H2).
    split; assumption.
Qed.

Lemma tracker_wf_init w h MAX_SLOTS : tracker_wf MAX_SLOTS (init_state w h MAX_SLOTS).
Proof.
  unfold tracker_wf, init_state, TRACKING_ID_MAX. cbn.
  rewrite length_replicate. lia.
Qed.

Lemma tracker_wf_step MAX_SLOTS fd op s :
  tracker_wf MAX_SLOTS s -> tracker_wf MAX_SLOTS (snd (run_op MAX_SLOTS fd op s)).
Proof.
  intros [Hl Hn]. pose proof (run_op_tracker MAX_SLOTS fd op s) as H.
  cbv zeta in H. unfold tracker_wf.
  destruct op as [slot x y | slot x y | slot].
  - destruct ((slot <? 0) || (slot >=? MAX_SLOTS)); destruct H as [-> ->].
    + split; assumption.
    + rewrite length_insert. split; [assumption | apply next_id_spec, Hn].
  - destruct H as [-> ->]. split; assumption.
  - destruct H as [[-> | ->] ->]; rewrite ?length_insert; split; assumption.
Qed.









(** *** The wrap-around of the counter

    The bound of 1000000 allocations is needed where the operations are
    called one after the other on one slot table. The command line runs one
    operation in each process, so no run of the program gets there. *)

Lemma run_ops_app MAX_SLOTS fd ops1 ops2 s :
  run_ops MAX_SLOTS fd (ops1 ++ ops2) s =
  run_ops MAX_SLOTS fd ops2 (run_ops MAX_SLOTS fd ops1 s).
Proof.
  revert s. induction ops1 as [|op ops1 IH]; intros s; [reflexivity|].
  cbn [app run_ops]. apply IH.
Qed.

Lemma plain_dev_never_fails s s' : ~ write_failed plain_dev s s'.
Proof. intros (k & _ & Hk). discriminate Hk. Qed.

(** On a device that accepts every write, with one finger down on slot 0 of
    two, a touch that goes down and up on slot 1 leaves the tracker as it
    was, the counter of IDs moved on by one allocation. *)
Lemma touch_and_lift_run s :
  slot_tracking s = [1; 0] -> active_touches s = 1 ->
  1 <= next_tracking_id s <= TRACKING_ID_MAX ->
  let s' := run_ops 2 plain_dev touch_and_lift s in
  slot_tracking s' = [1; 0] /\ active_touches s' = 1 /\
  next_tracking_id s' = next_id (next_tracking_id s).
Proof.
  intros Hs Ha Hn. unfold touch_and_lift. cbn [run_ops run_op].
  assert (Hb : 0 <= 1 < 2) by lia.
  destruct (mt_down_tracker 2 plain_dev 1 300 150 s Hb) as (Ht & Hc & _).
  destruct (mt_down_cases 2 plain_dev 1 300 150 s Hb)
    as [[_ Hf] | (_ & Hact & _)]; [destruct (plain_dev_never_fails _ _ Hf)|].
  set (sa := snd (mt_down 2 plain_dev 1 300 150 s)) in *.
  rewrite Hs in Ht. rewrite Ha in Hact.
  change (slot_tracking sa = [1; next_tracking_id s]) in Ht.
  change (active_touches sa = 2) in Hact.
  assert (Hsa : slot_at sa 1 <> 0).
  { unfold slot_at. rewrite Ht.
    change (next_tracking_id s <> 0). lia. }
  destruct (mt_up_tracker 2 plain_dev 1 sa) as (Hc' & _ & _ & _).
  destruct (mt_up_cases 2 plain_dev 1 sa Hb Hsa)
    as [[_ Hf] | (_ & Ht' & Hact' & _)]; [destruct (plain_dev_never_fails _ _ Hf)|].
  rewrite Ht', Ht, Hact', Hact, Hc', Hc.
  repeat split.
Qed.

Lemma next_id_mod n :
  1 <= n <= TRACKING_ID_MAX -> next_id n = n mod TRACKING_ID_MAX + 1.
Proof.
  intros H. destruct (next_id_spec n H) as [-> _].
  unfold TRACKING_ID_MAX in *.
  destruct (n =? 1000000) eqn:E;
    rewrite ?Z.eqb_eq, ?Z.eqb_neq in E.
  - subst n. reflexivity.
  - rewrite Z.mod_small by lia. reflexivity.
Qed.

Lemma touches_and_lifts_run n :
  forall s,
    slot_tracking s = [1; 0] -> active_touches s = 1 ->
    1 <= next_tracking_id s <= TRACKING_ID_MAX ->
    let s' := run_ops 2 plain_dev (concat (replicate n touch_and_lift)) s in
    slot_tracking s' = [1; 0] /\ active_touches s' = 1 /\
    next_tracking_id s' =
      (next_tracking_id s + Z.of_nat n - 1) mod TRACKING_ID_MAX + 1.
Proof.
  induction n as [|n IH]; intros s Hs Ha Hn.
  - cbn [replicate concat run_ops]. repeat split; try assumption.
    unfold TRACKING_ID_MAX in *. rewrite Z.mod_small; lia.
  - cbn [replicate concat]. rewrite run_ops_app.
    destruct (touch_and_lift_run s Hs Ha Hn) as (Hs1 & Ha1 & Hn1).
    set (s1 := run_ops 2 plain_dev touch_and_lift s) in *.
    assert (Hr1 : 1 <= next_tracking_id s1 <= TRACKING_ID_MAX)
      by (rewrite Hn1; apply next_id_spec, Hn).
    destruct (IH s1 Hs1 Ha1 Hr1) as (Hs2 & Ha2 & Hn2).
    split; [exact Hs2|]. split; [exact Ha2|].
    rewrite Hn2, Hn1, (next_id_mod _ Hn).
    replace (next_tracking_id s `mod` TRACKING_ID_MAX + 1 + Z.of_nat n - 1)
      with (next_tracking_id s `mod` TRACKING_ID_MAX + Z.of_nat n) by lia.
    rewrite Z.add_mod_idemp_l by (unfold TRACKING_ID_MAX; lia).
    do 2 f_equal. lia.
Qed.

(** While one finger stays down on slot 0 with tracking ID 1, the 1000000
    allocations that follow bring the counter back to 1, and the finger that
    then goes down on slot 1 gets tracking ID 1 too. *)
Lemma tracking_id_reused :
  let s := run_ops 2 plain_dev long_session (init_state 0 0 2) in
  slot_at s 0 = 1 /\ slot_at s 1 = 1.
Proof.
  intros s. subst s. unfold long_session. rewrite !run_ops_app.
  set (s1 := run_ops 2 plain_dev [MtDown 0 150 150] (init_state 0 0 2)).
  assert (H1 : slot_tracking s1 = [1; 0] /\ active_touches s1 = 1 /\
               next_tracking_id s1 = 2) by (vm_compute; repeat split).
  destruct H1 as (Hs1 & Ha1 & Hn1).
  destruct (touches_and_lifts_run (Z.to_nat 999999) s1 Hs1 Ha1) as (Hs2 & _ & Hn2);
    [rewrite Hn1; unfold TRACKING_ID_MAX; lia|].
  set (s2 := run_ops 2 plain_dev
               (concat (replicate (Z.to_nat 999999) touch_and_lift)) s1) in *.
  rewrite Hn1, Z2Nat.id in Hn2 by lia.
  change ((2 + 999999 - 1) `mod` TRACKING_ID_MAX + 1) with 1 in Hn2.
  cbn [run_ops run_op].
  destruct (mt_down_tracker 2 plain_dev 1 300 150 s2) as (Ht & _); [lia|].
  unfold slot_at. rewrite Ht, Hs2, Hn2. split; reflexivity.
Qed.

(** ** The active-touch count *)

(** C4 as stated fails: in a run of [mt-down 0 150 150] on a device that
    refuses the second write, the touch-contact key is written, the write of
    its commit fails and [main] returns [RS_ERR]: slot 0 holds a tracking
    ID, the count of active touches is 0 and the touch-contact signal is
    asserted. *)
Lemma failed_down_miscounts :
  let fd := flaky_dev 1 in
  let s := run_ops 2 fd [MtDown 0 150 150] (init_state 0 0 2) in
  main_command 2 atoi_digits (Some fd) false 0 0 ["mt-down"; "0"; "150"; "150"] =
    Some (mkExit RS_ERR true false false s) /\
  write_ok fd 1 = false /\
  trace s = [ev EV_KEY BTN_TOUCH 1] /\
  slot_tracking s = [1; 0] /\
  active_slots s = 1 /\ active_touches s = 0 /\ touch_asserted s = true.
Proof.
  vm_compute. repeat split.
Qed.

(** [mt_down] does not test whether the slot is already active, as
    [mt_move] and [mt_up] do. Where the operations are called one after the
    other on one slot table, with two slots and every write going through, a
    second [mt_down] on slot 0 succeeds and counts a second touch while one
    slot only holds a tracking ID; after the [mt_up] that follows no slot
    holds one, and the count is still 1 with the touch-contact signal
    asserted. The command line runs one operation in each process, so no run
    of the program gets there. *)
Theorem second_down_miscounts :
  let s0 := init_state 0 0 2 in
  let s1 := snd (mt_down 2 plain_dev 0 150 150 s0) in
  let s2 := snd (mt_down 2 plain_dev 0 150 150 s1) in
  let s3 := snd (mt_up 2 plain_dev 0 s2) in
  (fst (mt_down 2 plain_dev 0 150 150 s0) = RS_OK /\
   fst (mt_down 2 plain_dev 0 150 150 s1) = RS_OK /\
   fst (mt_up 2 plain_dev 0 s2) = RS_OK) /\
  (slot_tracking s2 = [2; 0] /\ active_slots s2 = 1 /\ active_touches s2 = 2) /\
  (slot_tracking s3 = [0; 0] /\ active_slots s3 = 0 /\ active_touches s3 = 1 /\
   touch_asserted s3 = true) /\
  s3 = run_ops 2 plain_dev [MtDown 0 150 150; MtDown 0 150 150; MtUp 0] s0.
Proof.
  vm_compute. repeat split.
Qed.

(** *** The invariant on runs without a second down

    The count is kept right as long as every write goes through and no
    [mt_down] is issued on an active slot. *)

Lemma active_slots_bounds s : 0 <= active_slots s <= Z.of_nat (length (slot_tracking s)).
Proof.
  unfold active_slots. pose proof (List.filter_length_le
    (fun t => negb (t =? 0)) (slot_tracking s)). lia.
Qed.

Lemma filter_insert_nonzero (l : list Z) i old v :
  l !! i = Some old ->
  Z.of_nat (length (List.filter (fun t => negb (t =? 0)) (<[i := v]> l))) =
  Z.of_nat (length (List.filter (fun t => negb (t =? 0)) l))
  - (if old =? 0 then 0 else 1) + (if v =? 0 then 0 else 1).
Proof.
  revert i. induction l as [|a l IH]; intros i Hi; [discriminate Hi|].
  destruct i as [|i].
  - injection Hi as ->. cbn [list_insert insert List.filter].
    destruct (old =? 0); destruct (v =? 0); cbn [negb length]; lia.
  - cbn in Hi. specialize (IH i Hi).
    change (<[S i:=v]> (a :: l)) with (a :: <[i:=v]> l).
    cbn [List.filter]. destruct (negb (a =? 0)); cbn [length]; lia.
Qed.

Lemma active_slots_insert s s' slot v :
  0 <= slot -> (Z.to_nat slot < length (slot_tracking s))%nat ->
  slot_tracking s' = <[Z.to_nat slot := v]> (slot_tracking s) ->
  active_slots s' =
  active_slots s - (if slot_at s slot =? 0 then 0 else 1) + (if v =? 0 then 0 else 1).
Proof.
  intros _ Hlen Hs'. unfold active_slots, slot_at. rewrite Hs'.
  destruct (lookup_lt_is_Some_2 _ _ Hlen) as [old Hold].
  rewrite Hold. apply filter_insert_nonzero, Hold.
Qed.

Lemma btn_touch_level_app l1 l2 level :
  btn_touch_level (l1 ++ l2) level = btn_touch_level l2 (btn_touch_level l1 level).
Proof.
  revert level. induction l1 as [|a l1 IH]; intros level; [reflexivity|].
  cbn [app btn_touch_level]. destruct a as [e|u]; [|apply IH].
  destruct ((ev_type e =? EV_KEY) && (ev_code e =? BTN_TOUCH)); apply IH.
Qed.

Lemma level_mt_down first slot tid x y level :
  btn_touch_level (mt_down_actions first slot tid x y) level =
  if first then 1 else level.
Proof. destruct first; reflexivity. Qed.

Lemma level_mt_move slot x y level :
  btn_touch_level (mt_move_actions slot x y) level = level.
Proof. reflexivity. Qed.

Lemma level_mt_up last slot level :
  btn_touch_level (mt_up_actions last slot) level = if last then 0 else level.
Proof. destruct last; reflexivity. Qed.

Lemma reliable_never_fails fd s s' : reliable fd -> ~ write_failed fd s s'.
Proof. intros Hr (k & _ & Hk). rewrite Hr in Hk. discriminate Hk. Qed.

Lemma count_invariant_init w h MAX_SLOTS :
  count_invariant MAX_SLOTS (init_state w h MAX_SLOTS).
Proof.
  unfold count_invariant, init_state, active_slots, touch_asserted.
  cbn [slot_tracking active_touches trace btn_touch_level].
  rewrite length_replicate. split; [reflexivity|]. split; [|reflexivity].
  induction (Z.to_nat MAX_SLOTS) as [|n IH]; [reflexivity | exact IH].
Qed.

Lemma count_invariant_kept MAX_SLOTS fd op s :
  MAX_SLOTS <= INT_MAX ->
  ~ write_failed fd s (snd (run_op MAX_SLOTS fd op s)) ->
  tracker_wf MAX_SLOTS s -> count_invariant MAX_SLOTS s ->
  no_second_down MAX_SLOTS fd [op] s ->
  count_invariant MAX_SLOTS (snd (run_op MAX_SLOTS fd op s)).
Proof.
  intros Hmax Hnf [_ Hid] (Hlen & Hcnt & Hsig) [Hop _].
  pose proof (active_slots_bounds s) as Hbnd.
  destruct op as [slot x y | slot x y | slot]; cbn [run_op] in *.
  - (* mt_down *)
    destruct (Z_lt_dec slot 0) as [Hl|Hl];
      [rewrite mt_down_out_of_bounds by lia; repeat split; assumption|].
    destruct (Z_le_dec MAX_SLOTS slot) as [Hu|Hu];
      [rewrite mt_down_out_of_bounds by lia; repeat split; assumption|].
    assert (Hb : 0 <= slot < MAX_SLOTS) by lia.
    specialize (Hop Hb).
    destruct (mt_down_tracker MAX_SLOTS fd slot x y s Hb) as (Ht & _).
    destruct (mt_down_cases MAX_SLOTS fd slot x y s Hb)
      as [[_ Hf] | (_ & Hact & Htr)];
      [destruct (Hnf Hf)|].
    set (s' := snd (mt_down MAX_SLOTS fd slot x y s)) in *.
    assert (Hslots : active_slots s' = active_slots s + 1).
    { rewrite (active_slots_insert s s' slot (next_tracking_id s)) by (lia || exact Ht).
      rewrite Hop. cbn [Z.eqb].
      destruct (next_tracking_id s =? 0) eqn:E;
        [apply Z.eqb_eq in E; lia | lia]. }
    assert (Hlen' : length (slot_tracking s') = Z.to_nat MAX_SLOTS)
      by (rewrite Ht, length_insert; exact Hlen).
    pose proof (active_slots_bounds s') as Hbnd'.
    assert (Hact' : active_touches s' = active_touches s + 1).
    { rewrite Hact. unfold int_add. apply to_int_id.
      unfold is_int, INT_MIN, INT_MAX in *. lia. }
    split; [exact Hlen'|]. split; [lia|].
    unfold touch_asserted in *.
    rewrite Htr, btn_touch_level_app, level_mt_down, Hact'.
    replace (0 <? active_touches s + 1) with true by (symmetry; apply Z.ltb_lt; lia).
    destruct (active_touches s =? 0) eqn:E; [reflexivity|].
    rewrite Hsig. apply Z.eqb_neq in E. apply Z.ltb_lt. lia.
  - (* mt_move *)
    destruct (Z_lt_dec slot 0) as [Hl|Hl];
      [rewrite mt_move_rejected by lia; repeat split; assumption|].
    destruct (Z_le_dec MAX_SLOTS slot) as [Hu|Hu];
      [rewrite mt_move_rejected by lia; repeat split; assumption|].
    destruct (Z.eq_dec (slot_at s slot) 0) as [Hz|Hz];
      [rewrite mt_move_rejected by lia; repeat split; assumption|].
    assert (Hb : 0 <= slot < MAX_SLOTS) by lia.
    destruct (mt_move_globals MAX_SLOTS fd slot x y s) as (_ & _ & Ht & _ & Hact).
    destruct (mt_move_cases MAX_SLOTS fd slot x y s Hb Hz) as [[_ Hf] | (_ & Htr)];
      [destruct (Hnf Hf)|].
    set (s' := snd (mt_move MAX_SLOTS fd slot x y s)) in *.
    unfold count_invariant, active_slots, touch_asserted in *.
    rewrite Ht, Hact, Htr, btn_touch_level_app, level_mt_move.
    repeat split; assumption.
  - (* mt_up *)
    destruct (Z_lt_dec slot 0) as [Hl|Hl];
      [rewrite mt_up_rejected by lia; repeat split; assumption|].
    destruct (Z_le_dec MAX_SLOTS slot) as [Hu|Hu];
      [rewrite mt_up_rejected by lia; repeat split; assumption|].
    destruct (Z.eq_dec (slot_at s slot) 0) as [Hz|Hz];
      [rewrite mt_up_rejected by lia; repeat split; assumption|].
    assert (Hb : 0 <= slot < MAX_SLOTS) by lia.
    destruct (mt_up_cases MAX_SLOTS fd slot s Hb Hz)
      as [[_ Hf] | (_ & Ht & Hact & Htr)];
      [destruct (Hnf Hf)|].
    set (s' := snd (mt_up MAX_SLOTS fd slot s)) in *.
    assert (Hslots : active_slots s' = active_slots s - 1).
    { rewrite (active_slots_insert s s' slot 0) by (lia || exact Ht).
      apply Z.eqb_neq in Hz. rewrite Hz. cbn [Z.eqb]. lia. }
    assert (Hlen' : length (slot_tracking s') = Z.to_nat MAX_SLOTS)
      by (rewrite Ht, length_insert; exact Hlen).
    pose proof (active_slots_bounds s') as Hbnd'.
    assert (Hsub : int_sub (active_touches s) 1 = active_touches s - 1).
    { unfold int_sub. apply to_int_id.
      unfold is_int, INT_MIN, INT_MAX in *. lia. }
    rewrite Hsub in Hact, Htr.
    split; [exact Hlen'|].
    unfold touch_asserted in *.
    rewrite Htr, btn_touch_level_app, level_mt_up, Hact.
    destruct (active_touches s - 1 <=? 0) eqn:E.
    + apply Z.leb_le in E. split; [lia | reflexivity].
    + apply Z.leb_gt in E. split; [lia|].
      rewrite Hsig. replace (0 <? active_touches s - 1) with true
        by (symmetry; apply Z.ltb_lt; lia).
      apply Z.ltb_lt. lia.
Qed.

Lemma count_invariant_step MAX_SLOTS fd op s :
  MAX_SLOTS <= INT_MAX -> reliable fd ->
  tracker_wf MAX_SLOTS s -> count_invariant MAX_SLOTS s ->
  no_second_down MAX_SLOTS fd [op] s ->
  count_invariant MAX_SLOTS (snd (run_op MAX_SLOTS fd op s)).
Proof.
  intros Hmax Hrel. apply count_invariant_kept; [exact Hmax|].
  apply reliable_never_fails, Hrel.
Qed.

(** C4 (amended): with multi-touch enabled, after every sequence of
    [mt_down], [mt_move] and [mt_up] operations starting from the all-zero
    slot table in which every write that was attempted went through and no
    [mt_down] was issued on a slot active at that moment, the active-touch
    count is the number of slots with a nonzero tracking ID and the
    touch-contact signal is asserted exactly when that count is positive. *)
Theorem count_invariant_while_writes_succeed (MAX_SLOTS : Z) (fd : device)
    (w h : Z) (ops : list mt_op) :
  1 < MAX_SLOTS <= INT_MAX ->
  every_write_through MAX_SLOTS fd ops (init_state w h MAX_SLOTS) ->
  no_second_down MAX_SLOTS fd ops (init_state w h MAX_SLOTS) ->
  let s := run_ops MAX_SLOTS fd ops (init_state w h MAX_SLOTS) in
  active_touches s = active_slots s /\
  (touch_asserted s = true <-> 0 < active_touches s).
Proof.
  intros [_ Hmax] Hw Hd.
  assert (H : count_invariant MAX_SLOTS
                (run_ops MAX_SLOTS fd ops (init_state w h MAX_SLOTS))).
  { pose proof (tracker_wf_init w h MAX_SLOTS) as Hwf.
    pose proof (count_invariant_init w h MAX_SLOTS) as Hinv.
    revert Hw Hd Hwf Hinv. generalize (init_state w h MAX_SLOTS).
    induction ops as [|op ops IH]; intros s Hw Hd Hwf Hinv; [exact Hinv|].
    destruct Hw as [Hnf Hw]. destruct Hd as [Hop Hd].
    cbn [run_ops]. apply IH.
    - exact Hw.
    - exact Hd.
    - apply tracker_wf_step, Hwf.
    - apply count_invariant_kept; try assumption. split; [exact Hop | exact I]. }
  destruct H as (_ & Hcnt & Hsig). cbv zeta.
  split; [exact Hcnt|]. rewrite Hsig. apply Z.ltb_lt.
Qed.

(** A device that refuses its write number 100 and a session that stops
    before: two fingers down, one moved, one lifted. *)
Lemma count_invariant_while_writes_succeed_witness :
  let s := run_ops 2 (flaky_dev 100)
             [MtDown 0 150 150; MtDown 1 300 150; MtMove 0 155 153; MtUp 1]
             (init_state 0 0 2) in
  active_touches s = active_slots s /\
  (touch_asserted s = true <-> 0 < active_touches s).
Proof.
  apply (count_invariant_while_writes_succeed 2 (flaky_dev 100) 0 0).
  - vm_compute. split; [reflexivity | discriminate].
  - cbn [every_write_through]. repeat split;
      intros (k & Hk & Hf);
      apply negb_false_iff, Nat.eqb_eq in Hf; subst k;
      vm_compute in Hk; lia.
  - cbn [no_second_down]. repeat split; intros _; vm_compute; reflexivity.
Defined.

(** X1: starting from the all-zero slot table, as long as every write goes
    through and no [mt_down] is issued on an active slot, the active-touch
    count is the number of slots with a nonzero tracking ID and the
    touch-contact signal is asserted exactly when that count is positive. *)
Theorem count_invariant_without_second_down (MAX_SLOTS : Z) (fd : device)
    (w h : Z) (ops : list mt_op) :
  1 < MAX_SLOTS <= INT_MAX ->
  reliable fd ->
  no_second_down MAX_SLOTS fd ops (init_state w h MAX_SLOTS) ->
  let s := run_ops MAX_SLOTS fd ops (init_state w h MAX_SLOTS) in
  active_touches s = active_slots s /\
  (touch_asserted s = true <-> 0 < active_touches s).
Proof.
  intros [_ Hmax] Hrel Hd.
  assert (H : count_invariant MAX_SLOTS
                (run_ops MAX_SLOTS fd ops (init_state w h MAX_SLOTS))).
  { pose proof (tracker_wf_init w h MAX_SLOTS) as Hwf.
    pose proof (count_invariant_init w h MAX_SLOTS) as Hinv.
    revert Hd Hwf Hinv. generalize (init_state w h MAX_SLOTS).
    induction ops as [|op ops IH]; intros s [Hop Hd] Hwf Hinv || intros s Hd Hwf Hinv;
      [exact Hinv|].
    cbn [run_ops]. apply IH.
    - exact Hd.
    - apply tracker_wf_step, Hwf.
    - apply count_invariant_step; try assumption. split; [exact Hop | exact I]. }
  destruct H as (_ & Hcnt & Hsig). cbv zeta.
  split; [exact Hcnt|]. rewrite Hsig. apply Z.ltb_lt.
Qed.

Lemma count_invariant_without_second_down_witness :
  let s := run_ops 2 plain_dev
             [MtDown 0 150 150; MtDown 1 300 150; MtMove 0 155 153; MtUp 0]
             (init_state 0 0 2) in
  active_touches s = active_slots s /\
  (touch_asserted s = true <-> 0 < active_touches s).
Proof.
  apply (count_invariant_without_second_down 2 plain_dev 0 0).
  - unfold INT_MAX. lia.
  - intros n. reflexivity.
  - vm_compute. repeat split; intros; reflexivity.
Defined.

(** ** The success path exists

    On a device that accepts every write each gesture returns [RS_OK]: the
    single-touch gestures always, [mt_down] on a slot within bounds,
    [mt_move] and [mt_up] on an active slot within bounds. *)

(** The branch in which a write on a reliable device failed. *)
Ltac impossible_failure Hrel :=
  match goal with
  | H : write_ok _ _ = false |- _ => rewrite Hrel in H; discriminate H
  end.

Lemma do_tap_reliable fd lx ly hold_ms s :
  reliable fd -> fst (do_tap fd lx ly hold_ms s) = RS_OK.
Proof.
  intros Hrel. unfold do_tap. unfold_ops.
  rewrite map_x_run. cbn. rewrite map_y_run. cbn.
  run_writes_with ltac:(idtac; impossible_failure Hrel).
  destruct (0 <? hold_ms); cbn;
    run_writes_with ltac:(idtac; impossible_failure Hrel); reflexivity.
Qed.

Lemma swipe_loop_reliable fd x1 y1 x2 y2 duration_ms steps n :
  reliable fd ->
  forall i s, fst (swipe_loop n fd x1 y1 x2 y2 duration_ms steps i s) = RS_OK.
Proof.
  intros Hrel. induction n as [|n IH]; intros i s; [reflexivity|].
  cbn [swipe_loop]. unfold_ops.
  rewrite map_x_run. cbn. rewrite Hrel. cbn.
  rewrite map_y_run. cbn.
  run_writes_with ltac:(idtac; impossible_failure Hrel).
  destruct (0 <? duration_ms `quot` steps); cbn; apply IH.
Qed.

Lemma do_swipe_reliable fd x1 y1 x2 y2 duration_ms steps s :
  reliable fd -> fst (do_swipe fd x1 y1 x2 y2 duration_ms steps s) = RS_OK.
Proof.
  intros Hrel. unfold do_swipe.
  generalize (if steps <? 1 then 10 else steps). intros n.
  unfold is_err at 1. unfold bind at 1. unfold bind at 1.
  pose proof (do_tap_reliable fd x1 y1 0 s Hrel) as H1.
  destruct (do_tap fd x1 y1 0 s) as [r1 s1]. cbn [fst] in H1. subst r1. cbn.
  unfold bind at 1.
  pose proof (swipe_loop_reliable fd x1 y1 x2 y2 duration_ms n (Z.to_nat n)
                Hrel 1 s1) as H2.
  destruct (swipe_loop (Z.to_nat n) fd x1 y1 x2 y2 duration_ms n 1 s1)
    as [r2 s2]. cbn [fst] in H2. subst r2. cbn.
  unfold_ops. cbn.
  run_writes_with ltac:(idtac; impossible_failure Hrel). reflexivity.
Qed.

(** X2: on a device that accepts every write no gesture fails: tap and
    longpress return [RS_OK] for all operands and from every state, swipe
    for every number of steps below [INT_MAX], [mt_down] for every slot
    within bounds, [mt_move] and [mt_up] for every active slot within
    bounds. *)
Theorem gestures_succeed (fd : device) :
  reliable fd ->
  (forall lx ly hold_ms s, fst (do_tap fd lx ly hold_ms s) = RS_OK) /\
  (forall lx ly hold_ms s, fst (do_longpress fd lx ly hold_ms s) = RS_OK) /\
  (forall x1 y1 x2 y2 duration_ms steps s,
     steps < INT_MAX ->
     fst (do_swipe fd x1 y1 x2 y2 duration_ms steps s) = RS_OK) /\
  (forall MAX_SLOTS slot lx ly s,
     0 <= slot < MAX_SLOTS ->
     fst (mt_down MAX_SLOTS fd slot lx ly s) = RS_OK) /\
  (forall MAX_SLOTS slot lx ly s,
     0 <= slot < MAX_SLOTS -> slot_at s slot <> 0 ->
     fst (mt_move MAX_SLOTS fd slot lx ly s) = RS_OK) /\
  (forall MAX_SLOTS slot s,
     0 <= slot < MAX_SLOTS -> slot_at s slot <> 0 ->
     fst (mt_up MAX_SLOTS fd slot s) = RS_OK).
Proof.
  intros Hrel.
  split; [intros; apply do_tap_reliable, Hrel|].
  split; [intros; apply do_tap_reliable, Hrel|].
  split; [intros; apply do_swipe_reliable, Hrel|].
  split; [|split].
  - intros MAX_SLOTS slot lx ly s Hb.
    destruct (mt_down_cases MAX_SLOTS fd slot lx ly s Hb) as [[_ Hf] | [H _]];
      [destruct (reliable_never_fails _ _ _ Hrel Hf) | exact H].
  - intros MAX_SLOTS slot lx ly s Hb Ha.
    destruct (mt_move_cases MAX_SLOTS fd slot lx ly s Hb Ha) as [[_ Hf] | [H _]];
      [destruct (reliable_never_fails _ _ _ Hrel Hf) | exact H].
  - intros MAX_SLOTS slot s Hb Ha.
    destruct (mt_up_cases MAX_SLOTS fd slot s Hb Ha) as [[_ Hf] | [H _]];
      [destruct (reliable_never_fails _ _ _ Hrel Hf) | exact H].
Qed.

Lemma gestures_succeed_witness :
  fst (do_tap plain_dev 200 150 100 (init_state 0 0 1)) = RS_OK /\
  fst (mt_down 2 plain_dev 1 300 150 (init_state 0 0 2)) = RS_OK.
Proof.
  destruct (gestures_succeed plain_dev) as (H1 & _ & _ & H4 & _);
    [intros n; reflexivity|].
  split; [apply H1 | apply H4; lia].
Defined.

(** * Further properties *)

(** ** Single-precision arithmetic on integers

    Integers below [2^24] in magnitude are binary32 values, and the
    operations of [F32] are exact on them. *)

Lemma pow2_Qpower e : (F32.pow2 e == 2 ^ e)%Q.
Proof.
  unfold F32.pow2. destruct (0 <=? e) eqn:E.
  - apply Z.leb_le in E. exact (Zpower_Qpower 2 e E).
  - apply Z.leb_gt in E.
    assert (H : (2 ^ e == / 2 ^ (- e))%Q).
    { replace e with (- - e) at 1 by lia. apply Qpower_opp. }
    assert (H2 : (inject_Z (2 ^ (- e)) == 2 ^ (- e))%Q)
      by (apply (Zpower_Qpower 2); lia).
    assert (Hp : 0 < 2 ^ (- e)) by (apply Z.pow_pos_nonneg; lia).
    eapply Qeq_trans; [|symmetry; exact H].
    eapply Qeq_trans; [|apply Qinv_comp; exact H2].
    destruct (2 ^ (- e)) as [|p|p] eqn:Ep; try lia.
    reflexivity.
Qed.

Lemma pow2_pos e : (0 < F32.pow2 e)%Q.
Proof. rewrite pow2_Qpower. apply Qpower_0_lt. reflexivity. Qed.

Lemma pow2_le e1 e2 : e1 <= e2 -> (F32.pow2 e1 <= F32.pow2 e2)%Q.
Proof.
  intros H. rewrite !pow2_Qpower. apply Qpower_le_compat_l; [exact H | discriminate].
Qed.

Lemma pow2_add e1 e2 : (F32.pow2 (e1 + e2) == F32.pow2 e1 * F32.pow2 e2)%Q.
Proof. rewrite !pow2_Qpower. apply Qpower_plus. discriminate. Qed.

Lemma pow2_nonneg_Z e : 0 <= e -> F32.pow2 e = inject_Z (2 ^ e).
Proof. intros H. unfold F32.pow2. apply Z.leb_le in H. rewrite H. reflexivity. Qed.

Local Open Scope Q_scope.

Lemma Qmake_mult n d : (n # d) * inject_Z (Zpos d) == inject_Z n.
Proof.
  unfold Qeq, Qmult, inject_Z. cbn. rewrite Pos.mul_1_r. ring.
Qed.

Lemma ilog2_spec q :
  0 < q -> F32.pow2 (F32.ilog2 q) <= q /\ q < F32.pow2 (F32.ilog2 q + 1).
Proof.
  intros Hq. destruct q as [n d].
  assert (Hn : (0 < n)%Z).
  { unfold Qlt in Hq. cbn in Hq. lia. }
  unfold F32.ilog2. cbn [Qnum Qden].
  set (ln := Z.log2 n). set (ld := Z.log2 (Zpos d)).
  destruct (Z.log2_spec n Hn) as [Hn1 Hn2]. fold ln in Hn1, Hn2.
  destruct (Z.log2_spec (Zpos d) ltac:(lia)) as [Hd1 Hd2]. fold ld in Hd1, Hd2.
  assert (Hln : (0 <= ln)%Z) by apply Z.log2_nonneg.
  assert (Hld : (0 <= ld)%Z) by apply Z.log2_nonneg.
  pose proof (Qmake_mult n d) as Hm.
  assert (Qd : 0 < inject_Z (Zpos d)) by (unfold Qlt; cbn; lia).
  (* upper *)
  assert (HA : n # d < F32.pow2 (ln - ld + 1)).
  { pose proof (pow2_add (ln - ld + 1) ld) as Hadd.
    replace (ln - ld + 1 + ld)%Z with (Z.succ ln) in Hadd by lia.
    rewrite (pow2_nonneg_Z (Z.succ ln)) in Hadd by lia.
    rewrite (pow2_nonneg_Z ld) in Hadd by lia.
    pose proof (pow2_pos (ln - ld + 1)) as Hp.
    assert (H1 : inject_Z n < inject_Z (2 ^ Z.succ ln)) by (rewrite <- Zlt_Qlt; lia).
    assert (H2 : inject_Z (2 ^ ld) <= inject_Z (Zpos d)) by (rewrite <- Zle_Qle; lia).
    assert (H3 : 0 < inject_Z (2 ^ ld)) by (rewrite <- (Zlt_Qlt 0); lia).
    nra. }
  assert (HB : F32.pow2 (ln - ld - 1) <= n # d).
  { pose proof (pow2_add (ln - ld - 1) (Z.succ ld)) as Hadd.
    replace (ln - ld - 1 + Z.succ ld)%Z with ln in Hadd by lia.
    rewrite (pow2_nonneg_Z ln) in Hadd by lia.
    rewrite (pow2_nonneg_Z (Z.succ ld)) in Hadd by lia.
    pose proof (pow2_pos (ln - ld - 1)) as Hp.
    assert (H1 : inject_Z (2 ^ ln) <= inject_Z n) by (rewrite <- Zle_Qle; lia).
    assert (H2 : inject_Z (Zpos d) < inject_Z (2 ^ Z.succ ld)) by (rewrite <- Zlt_Qlt; lia).
    nra. }
  destruct (Qle_bool (F32.pow2 (ln - ld)) (n # d)) eqn:E.
  - apply Qle_bool_iff in E. split; assumption.
  - split; [exact HB|].
    replace (ln - ld - 1 + 1)%Z with (ln - ld)%Z by lia.
    apply Qnot_le_lt. intros H. apply Qle_bool_iff in H. congruence.
Qed.

Lemma ilog2_unique q e :
  0 < q -> F32.pow2 e <= q -> q < F32.pow2 (e + 1) -> F32.ilog2 q = e.
Proof.
  intros Hq H1 H2. destruct (ilog2_spec q Hq) as [H3 H4].
  destruct (Z.lt_trichotomy (F32.ilog2 q) e) as [Hlt | [Heq | Hgt]]; [|exact Heq|].
  - exfalso. pose proof (pow2_le (F32.ilog2 q + 1) e ltac:(lia)). lra.
  - exfalso. pose proof (pow2_le (e + 1) (F32.ilog2 q) ltac:(lia)). lra.
Qed.

Lemma nearest_even_Z q m : q == inject_Z m -> F32.nearest_even q = m.
Proof.
  intros H. unfold F32.nearest_even.
  assert (Hf : Qfloor q = m) by (rewrite H; apply Qfloor_Z).
  cbv zeta. rewrite Hf.
  assert (Hc : Qcompare (q - inject_Z m) (1 # 2) = Lt).
  { assert (Hz : q - inject_Z m == 0) by (rewrite H; ring).
    rewrite Hz. reflexivity. }
  rewrite Hc. reflexivity.
Qed.

Lemma Qred_inject_Z z : Qred (inject_Z z) = inject_Z z.
Proof.
  apply Qcanon.Qred_identity. cbn. apply Z.gcd_1_r.
Qed.

(** A value that is an integer below [2^24] in magnitude is a binary32
    value: rounding leaves it as it is. *)
Lemma round_exact q z :
  q == inject_Z z -> (Z.abs z < 2 ^ 24)%Z -> F32.round q = inject_Z z.
Proof.
  intros Hq Hz. unfold F32.round.
  destruct (Qeq_bool q 0) eqn:E0.
  - apply Qeq_bool_iff in E0. rewrite Hq in E0.
    unfold Qeq in E0. cbn in E0. replace z with 0%Z by lia. reflexivity.
  - assert (Hz0 : z <> 0%Z).
    { intros ->. rewrite (proj2 (Qeq_bool_iff q 0) Hq) in E0. discriminate E0. }
    set (L := Z.log2 (Z.abs z)).
    assert (HL : (0 <= L < 24)%Z).
    { split; [apply Z.log2_nonneg|]. apply Z.log2_lt_pow2; lia. }
    destruct (Z.log2_spec (Z.abs z) ltac:(lia)) as [HL1 HL2]. fold L in HL1, HL2.
    assert (Ha : Qabs q == inject_Z (Z.abs z)) by (rewrite Hq; reflexivity).
    assert (Hi : F32.ilog2 (Qabs q) = L).
    { apply ilog2_unique.
      - rewrite Ha. rewrite <- (Zlt_Qlt 0). lia.
      - rewrite Ha, pow2_nonneg_Z by lia. rewrite <- Zle_Qle. exact HL1.
      - rewrite Ha, pow2_nonneg_Z by lia. rewrite <- Zlt_Qlt. exact HL2. }
    rewrite Hi. set (k := (23 - L)%Z).
    assert (Hk : F32.pow2 (L - 23) * F32.pow2 k == 1).
    { rewrite <- pow2_add. replace (L - 23 + k)%Z with 0%Z by (unfold k; lia).
      reflexivity. }
    pose proof (pow2_pos (L - 23)) as Hp.
    assert (Hm : q == inject_Z (z * 2 ^ k) * F32.pow2 (L - 23)).
    { rewrite inject_Z_mult, <- (pow2_nonneg_Z k) by (unfold k; lia).
      rewrite Hq. rewrite <- Qmult_assoc, (Qmult_comm (F32.pow2 k)), Hk. ring. }
    assert (Hd : q / F32.pow2 (L - 23) == inject_Z (z * 2 ^ k)).
    { rewrite Hm at 1. apply Qdiv_mult_l. lra. }
    rewrite (nearest_even_Z _ _ Hd).
    rewrite <- (Qred_inject_Z z). apply Qred_complete.
    rewrite <- Hm. exact Hq.
Qed.

Lemma round_pos q : 0 < q -> 0 < F32.round q.
Proof.
  intros Hq. unfold F32.round.
  destruct (Qeq_bool q 0) eqn:E0.
  - apply Qeq_bool_iff in E0. lra.
  - assert (Ha : Qabs q == q) by (apply Qabs_pos; lra).
    set (e := (F32.ilog2 (Qabs q) - 23)%Z).
    destruct (ilog2_spec (Qabs q)) as [H1 _]; [lra|].
    pose proof (pow2_pos e) as Hp.
    assert (H23 : F32.pow2 23 * F32.pow2 e <= q).
    { rewrite <- pow2_add. replace (23 + e)%Z with (F32.ilog2 (Qabs q)) by (unfold e; lia).
      lra. }
    assert (Hd : F32.pow2 23 <= q / F32.pow2 e).
    { apply Qle_shift_div_l; assumption. }
    assert (Hn : (2 ^ 23 <= F32.nearest_even (q / F32.pow2 e))%Z).
    { unfold F32.nearest_even. cbv zeta.
      assert (Hfl : (2 ^ 23 <= Qfloor (q / F32.pow2 e))%Z).
      { rewrite <- (Qfloor_Z (2 ^ 23)). apply Qfloor_resp_le.
        rewrite <- pow2_nonneg_Z by lia. exact Hd. }
      destruct (Qcompare _ _); [destruct (Z.even _)| |]; lia. }
    rewrite Qred_correct.
    apply Qmult_lt_0_compat; [|exact Hp].
    rewrite <- (Zlt_Qlt 0). lia.
Qed.

Lemma of_int_exact z : (Z.abs z < 2 ^ 24)%Z -> F32.of_int z = inject_Z z.
Proof. intros H. apply round_exact; [reflexivity | exact H]. Qed.

(** [(float) n / n] is 1 for every [n >= 1]. *)
Lemma div_self n : (1 <= n)%Z -> F32.div (F32.of_int n) (F32.of_int n) = 1.
Proof.
  intros Hn. unfold F32.div.
  assert (Hp : 0 < F32.of_int n).
  { apply round_pos. rewrite <- (Zlt_Qlt 0). lia. }
  apply (round_exact _ 1); [|reflexivity].
  apply Qmult_inv_r. lra.
Qed.

(** With [t = 1] the interpolation gives the end value, for values below
    [2^23] in magnitude. *)
Lemma lerp_end a b :
  (Z.abs a < 2 ^ 23)%Z -> (Z.abs b < 2 ^ 23)%Z -> lerp a b 1 = b.
Proof.
  intros Ha Hb. unfold lerp, int_sub.
  rewrite to_int_id by (unfold is_int, INT_MIN, INT_MAX; lia).
  rewrite !of_int_exact by lia.
  unfold F32.mul. rewrite (round_exact _ (b - a)) by (try lia; ring).
  unfold F32.add. rewrite (round_exact _ b); try lia.
  - unfold F32.to_int. cbn [Qnum Qden inject_Z]. rewrite Z.quot_1_r.
    unfold INT_MIN, INT_MAX. lia.
  - rewrite <- inject_Z_plus. replace (a + (b - a))%Z with b by lia. reflexivity.
Qed.

Local Close Scope Q_scope.


(** ** Press, release and tap *)

Lemma do_press_cases fd lx ly s :
  fst (do_press fd lx ly s) = RS_ERR \/
  (fst (do_press fd lx ly s) = RS_OK /\
   trace (snd (do_press fd lx ly s)) =
   trace s ++ contact_actions (mapped AxisX fd s lx) (mapped AxisY fd s ly)).
Proof.
  unfold do_press, contact_actions. unfold_ops.
  rewrite map_x_run. cbn. rewrite map_y_run. cbn.
  run_writes_with ltac:(left; reflexivity).
  right. split; [reflexivity|]. rewrite <- ?app_assoc. reflexivity.
Qed.

Lemma do_release_cases fd s :
  fst (do_release fd s) = RS_ERR \/
  (fst (do_release fd s) = RS_OK /\
   trace (snd (do_release fd s)) = trace s ++ release_actions).
Proof.
  unfold do_release, release_actions. unfold_ops. cbn.
  run_writes_with ltac:(left; reflexivity).
  right. split; [reflexivity|]. rewrite <- ?app_assoc. reflexivity.
Qed.

(** X3: on the success path a tap writes the contact, pauses and writes the
    release; a press writes the contact only; a release writes the release
    only, from whatever state it is called in. *)
Theorem single_touch_sequences (fd : device) (lx ly hold_ms : Z) (s : state) :
  (fst (do_tap fd lx ly hold_ms s) = RS_OK ->
   emitted (do_tap fd lx ly hold_ms) s =
     contact_actions (mapped AxisX fd s lx) (mapped AxisY fd s ly) ++
     (if 0 <? hold_ms then [Slept (int_mul hold_ms 1000 mod 2 ^ 32)] else []) ++
     release_actions) /\
  (fst (do_press fd lx ly s) = RS_OK ->
   emitted (do_press fd lx ly) s =
     contact_actions (mapped AxisX fd s lx) (mapped AxisY fd s ly)) /\
  (fst (do_release fd s) = RS_OK ->
   emitted (do_release fd) s = release_actions).
Proof.
  split; [|split]; intros H.
  - apply trace_emitted. exact (do_tap_ok fd lx ly hold_ms s H).
  - destruct (do_press_cases fd lx ly s) as [E | [_ T]];
      [rewrite E in H; discriminate H|].
    apply trace_emitted, T.
  - destruct (do_release_cases fd s) as [E | [_ T]];
      [rewrite E in H; discriminate H|].
    apply trace_emitted, T.
Qed.

Lemma single_touch_sequences_witness :
  emitted (do_tap plain_dev 200 150 100) (init_state 0 0 1) =
    contact_actions 200 150 ++ [Slept 100000] ++ release_actions /\
  emitted (do_press plain_dev 200 150) (init_state 0 0 1) = contact_actions 200 150 /\
  emitted (do_release plain_dev) (init_state 0 0 1) = release_actions.
Proof.
  destruct (single_touch_sequences plain_dev 200 150 100 (init_state 0 0 1))
    as (H1 & H2 & H3).
  split; [apply H1; vm_compute; reflexivity|].
  split; [apply H2; vm_compute; reflexivity|].
  apply H3. vm_compute. reflexivity.
Defined.

(** X4: a tap is a press, the pause and a release: the two run the same
    writes with the same outcome on every device, failing ones included. *)
Theorem tap_is_press_hold_release (fd : device) (lx ly hold_ms : Z) (s : state) :
  do_tap fd lx ly hold_ms s = press_hold_release fd lx ly hold_ms s.
Proof.
  unfold press_hold_release, do_tap, do_press, do_release. unfold_ops.
  rewrite map_x_run. cbn. rewrite map_y_run. cbn.
  run_writes_with ltac:(reflexivity).
Qed.

(** ** How the gestures fail *)

(** The actions the run added to the trace. *)
Ltac give_trace :=
  first [ exists (@nil action); split; [symmetry; apply app_nil_r|]
        | eexists; split; [rewrite <- ?app_assoc; reflexivity|] ].

(** The branch of a run in which a write failed, and the one in which every
    write went through. *)
Ltac settle_failed :=
  give_trace;
  split; [eexists; cbn; reflexivity|];
  split; [cbn; lia|];
  split; [right; reflexivity|];
  split; [split; [intros _; failed_write | intros _; reflexivity]|];
  intros [=].

Ltac settle_passed :=
  give_trace;
  split; [exists (@nil action); cbn; reflexivity|];
  split; [cbn; lia|];
  split; [left; reflexivity|];
  split; [split; [intros [=] | intros Hwf; exfalso; no_failed_write Hwf]|];
  intros _; reflexivity.

Lemma do_tap_aborts fd lx ly hold_ms s :
  aborts_at_first_failure fd (do_tap fd lx ly hold_ms)
    (tap_actions (mapped AxisX fd s lx) (mapped AxisY fd s ly) hold_ms) s.
Proof.
  unfold aborts_at_first_failure, do_tap, tap_actions, contact_actions,
    release_actions, sleep_actions.
  unfold_ops. rewrite map_x_run. cbn. rewrite map_y_run. cbn.
  generalize (mapped AxisX fd s lx) (mapped AxisY fd s ly). intros x y.
  destruct (0 <? hold_ms); cbn;
    run_writes_with ltac:(idtac; settle_failed); settle_passed.
Qed.

Lemma do_press_aborts fd lx ly s :
  aborts_at_first_failure fd (do_press fd lx ly)
    (contact_actions (mapped AxisX fd s lx) (mapped AxisY fd s ly)) s.
Proof.
  unfold aborts_at_first_failure, do_press, contact_actions.
  unfold_ops. rewrite map_x_run. cbn. rewrite map_y_run. cbn.
  generalize (mapped AxisX fd s lx) (mapped AxisY fd s ly). intros x y.
  run_writes_with ltac:(idtac; settle_failed); settle_passed.
Qed.

Lemma do_release_aborts fd s :
  aborts_at_first_failure fd (do_release fd) release_actions s.
Proof.
  unfold aborts_at_first_failure, do_release, release_actions.
  unfold_ops. cbn.
  run_writes_with ltac:(idtac; settle_failed); settle_passed.
Qed.

Lemma written_app l1 l2 : written (l1 ++ l2) = (written l1 + written l2)%nat.
Proof.
  induction l1 as [|[e|u] l1 IH]; cbn; rewrite ?IH; reflexivity.
Qed.

(** Two runs in a row, the second one only when the first succeeded. *)
Lemma and_then_aborts fd m1 m2 full1 full2 s :
  aborts_at_first_failure fd m1 full1 s ->
  (fst (m1 s) = RS_OK -> aborts_at_first_failure fd m2 full2 (snd (m1 s))) ->
  aborts_at_first_failure fd (and_then m1 m2) (full1 ++ full2) s.
Proof.
  intros (l1 & T1 & P1 & A1 & V1 & F1 & K1) H2.
  unfold aborts_at_first_failure, and_then, bind, ret in *.
  destruct (m1 s) as [r1 s1]. cbn [fst snd] in *.
  destruct V1 as [-> | ->]; cbn [Z.eqb RS_OK RS_ERR] in *.
  - destruct (H2 eq_refl) as (l2 & T2 & P2 & A2 & V2 & F2 & K2).
    rewrite (K1 eq_refl) in *.
    destruct (m2 s1) as [r2 s2]. cbn [fst snd] in *.
    exists (full1 ++ l2).
    split; [rewrite T2, T1, app_assoc; reflexivity|].
    split; [apply prefix_app, P2|].
    split; [rewrite A2, A1, written_app; lia|].
    split; [exact V2|].
    split.
    + rewrite F2. split.
      * intros (k & Hk & Hf). exists k. split; [lia | exact Hf].
      * intros (k & Hk & Hf). exists k. split; [|exact Hf].
        destruct (le_lt_dec (attempts s1) k) as [Hle|Hlt]; [lia|].
        exfalso. assert (Hw : write_failed fd s s1) by (exists k; split; [lia | exact Hf]).
        apply F1 in Hw. discriminate Hw.
    + intros Hr. rewrite (K2 Hr). reflexivity.
  - exists l1. split; [exact T1|].
    split; [apply prefix_app_r, P1|].
    split; [exact A1|]. split; [right; reflexivity|].
    split; [exact F1|]. intros [=].
Qed.

Lemma aborts_ext fd m m' full s :
  m' s = m s -> aborts_at_first_failure fd m full s ->
  aborts_at_first_failure fd m' full s.
Proof. unfold aborts_at_first_failure. intros ->. exact (fun H => H). Qed.

Lemma swipe_loop_step fd x1 y1 x2 y2 duration_ms steps n i s :
  swipe_loop (S n) fd x1 y1 x2 y2 duration_ms steps i s =
  and_then (swipe_step fd x1 y1 x2 y2 duration_ms steps i)
           (swipe_loop n fd x1 y1 x2 y2 duration_ms steps (i + 1)) s.
Proof.
  cbn [swipe_loop]. unfold and_then, swipe_step. unfold_ops.
  rewrite map_x_run. cbn.
  destruct (write_ok fd (attempts s)); cbn; [|reflexivity].
  rewrite map_y_run. cbn.
  run_writes_with ltac:(reflexivity).
  destruct (0 <? duration_ms `quot` steps); reflexivity.
Qed.

Lemma swipe_step_globals fd x1 y1 x2 y2 duration_ms steps i s :
  same_globals s (snd (swipe_step fd x1 y1 x2 y2 duration_ms steps i s)).
Proof.
  unfold swipe_step. unfold_ops. rewrite map_x_run. cbn.
  destruct (write_ok fd (attempts s)); cbn; [|solve_globals].
  rewrite map_y_run. cbn.
  run_writes_with solve_globals.
  destruct (0 <? duration_ms `quot` steps); solve_globals.
Qed.

Lemma swipe_step_aborts fd x1 y1 x2 y2 duration_ms steps i s :
  aborts_at_first_failure fd (swipe_step fd x1 y1 x2 y2 duration_ms steps i)
    (step_actions fd s (duration_ms ÷ steps) (swipe_point x1 y1 x2 y2 steps i)) s.
Proof.
  unfold aborts_at_first_failure, swipe_step, step_actions, swipe_point,
    sleep_actions. cbn [fst snd].
  unfold_ops. rewrite map_x_run. cbn.
  destruct (0 <? duration_ms `quot` steps); cbn;
    (destruct (write_ok fd (attempts s)) eqn:W1; cbn; [|settle_failed]);
    rewrite map_y_run; cbn; rewrite (mapped_ext AxisY fd s) by reflexivity;
    run_writes_with ltac:(idtac; settle_failed); settle_passed.
Qed.

Lemma swipe_loop_aborts fd x1 y1 x2 y2 duration_ms steps n :
  forall i s,
    aborts_at_first_failure fd (swipe_loop n fd x1 y1 x2 y2 duration_ms steps i)
      (movement_actions fd s (duration_ms ÷ steps)
         (swipe_points x1 y1 x2 y2 steps i n)) s.
Proof.
  induction n as [|n IH]; intros i s.
  - exists (@nil action). cbn [swipe_loop ret fst snd].
    split; [symmetry; apply app_nil_r|].
    split; [apply prefix_nil|].
    split; [cbn; lia|].
    split; [left; reflexivity|].
    split; [split; [intros [=] | intros (k & Hk & _); lia]|].
    intros _. reflexivity.
  - rewrite swipe_points_S, movement_actions_cons.
    apply (aborts_ext fd _ _ _ _ (swipe_loop_step fd x1 y1 x2 y2 duration_ms steps n i s)).
    apply and_then_aborts; [apply swipe_step_aborts|].
    intros _.
    destruct (swipe_step_globals fd x1 y1 x2 y2 duration_ms steps i s)
      as (Hw & Hh & _).
    rewrite <- (movement_actions_ext fd s _ _ _ Hw Hh). apply IH.
Qed.

Lemma swipe_lift_aborts fd s :
  aborts_at_first_failure fd (swipe_lift fd) lift_actions s.
Proof.
  unfold aborts_at_first_failure, swipe_lift, lift_actions.
  unfold_ops. cbn.
  run_writes_with ltac:(idtac; settle_failed); settle_passed.
Qed.

Lemma do_swipe_and_then fd x1 y1 x2 y2 duration_ms steps s :
  do_swipe fd x1 y1 x2 y2 duration_ms steps s =
  and_then (do_tap fd x1 y1 0)
    (and_then
       (swipe_loop (Z.to_nat (effective_steps steps)) fd x1 y1 x2 y2
          duration_ms (effective_steps steps) 1)
       (swipe_lift fd)) s.
Proof.
  unfold do_swipe, effective_steps, and_then, swipe_lift, is_err, bind, ret.
  destruct (do_tap fd x1 y1 0 s) as [r1 s1].
  destruct (r1 =? RS_ERR); [reflexivity|].
  destruct (swipe_loop _ fd x1 y1 x2 y2 duration_ms _ 1 s1) as [r2 s2].
  destruct (r2 =? RS_ERR); reflexivity.
Qed.

Lemma do_swipe_aborts fd x1 y1 x2 y2 duration_ms steps s :
  aborts_at_first_failure fd (do_swipe fd x1 y1 x2 y2 duration_ms steps)
    (swipe_actions fd s x1 y1 x2 y2 duration_ms steps) s.
Proof.
  apply (aborts_ext fd _ _ _ _ (do_swipe_and_then fd x1 y1 x2 y2 duration_ms steps s)).
  unfold swipe_actions.
  apply and_then_aborts; [apply do_tap_aborts|]. intros _.
  destruct (do_tap_globals fd x1 y1 0 s) as (Hw & Hh & _).
  apply and_then_aborts.
  - rewrite <- (movement_actions_ext fd s _ _ _ Hw Hh). apply swipe_loop_aborts.
  - intros _. apply swipe_lift_aborts.
Qed.

Lemma mt_down_aborts MAX_SLOTS fd slot lx ly s :
  0 <= slot < MAX_SLOTS ->
  aborts_at_first_failure fd (mt_down MAX_SLOTS fd slot lx ly)
    (mt_down_actions (active_touches s =? 0) slot (next_tracking_id s)
       (mapped AxisX fd s lx) (mapped AxisY fd s ly)) s.
Proof.
  intros Hb.
  unfold aborts_at_first_failure, mt_down, mt_down_actions, touch_signal_actions.
  rewrite (in_bounds_test _ _ Hb).
  unfold_ops. rewrite map_x_run. cbn. rewrite map_y_run. cbn.
  generalize (mapped AxisX fd s lx) (mapped AxisY fd s ly). intros x y.
  destruct (int_add (next_tracking_id s) 1 >? TRACKING_ID_MAX); cbn;
    destruct (active_touches s =? 0); cbn;
    run_writes_with ltac:(idtac; settle_failed); settle_passed.
Qed.

Lemma mt_move_aborts MAX_SLOTS fd slot lx ly s :
  0 <= slot < MAX_SLOTS -> slot_at s slot <> 0 ->
  aborts_at_first_failure fd (mt_move MAX_SLOTS fd slot lx ly)
    (mt_move_actions slot (mapped AxisX fd s lx) (mapped AxisY fd s ly)) s.
Proof.
  intros Hb Ha. destruct (active_slot_tests _ _ _ Hb Ha) as (E1 & E2 & E3).
  unfold aborts_at_first_failure, mt_move, mt_move_actions.
  unfold_ops. rewrite E1, E2, E3.
  rewrite map_x_run. cbn. rewrite map_y_run. cbn.
  generalize (mapped AxisX fd s lx) (mapped AxisY fd s ly). intros x y.
  run_writes_with ltac:(idtac; settle_failed); settle_passed.
Qed.

Lemma mt_up_aborts MAX_SLOTS fd slot s :
  0 <= slot < MAX_SLOTS -> slot_at s slot <> 0 ->
  aborts_at_first_failure fd (mt_up MAX_SLOTS fd slot)
    (mt_up_actions (int_sub (active_touches s) 1 <=? 0) slot) s.
Proof.
  intros Hb Ha. destruct (active_slot_tests _ _ _ Hb Ha) as (E1 & E2 & E3).
  unfold aborts_at_first_failure, mt_up, mt_up_actions, touch_signal_actions.
  unfold_ops. rewrite E1, E2, E3. cbn.
  run_writes_with ltac:(idtac; settle_failed).
  destruct (int_sub (active_touches s) 1 <=? 0); cbn;
    run_writes_with ltac:(idtac; settle_failed); settle_passed.
Qed.

(** X5: every single-touch gesture stops at the first write that fails: it
    has then written a prefix of its sequence, made no further attempt, and
    returns [RS_ERR]; it returns [RS_ERR] in no other case, and [RS_OK] with
    the whole sequence written otherwise. *)
Theorem single_touch_abort (fd : device) (s : state) :
  (forall lx ly hold_ms,
     aborts_at_first_failure fd (do_tap fd lx ly hold_ms)
       (tap_actions (mapped AxisX fd s lx) (mapped AxisY fd s ly) hold_ms) s) /\
  (forall lx ly,
     aborts_at_first_failure fd (do_press fd lx ly)
       (contact_actions (mapped AxisX fd s lx) (mapped AxisY fd s ly)) s) /\
  aborts_at_first_failure fd (do_release fd) release_actions s /\
  (forall x1 y1 x2 y2 duration_ms steps,
     steps < INT_MAX ->
     aborts_at_first_failure fd (do_swipe fd x1 y1 x2 y2 duration_ms steps)
       (swipe_actions fd s x1 y1 x2 y2 duration_ms steps) s).
Proof.
  split; [intros; apply do_tap_aborts|].
  split; [intros; apply do_press_aborts|].
  split; [apply do_release_aborts|].
  intros. apply do_swipe_aborts.
Qed.

Lemma single_touch_abort_witness :
  aborts_at_first_failure (flaky_dev 12) (do_swipe (flaky_dev 12) 100 100 400 300 500 20)
    (swipe_actions (flaky_dev 12) (init_state 0 0 1) 100 100 400 300 500 20)
    (init_state 0 0 1) /\
  fst (do_swipe (flaky_dev 12) 100 100 400 300 500 20 (init_state 0 0 1)) = RS_ERR /\
  written (emitted (do_swipe (flaky_dev 12) 100 100 400 300 500 20)
             (init_state 0 0 1)) = 12%nat.
Proof.
  split; [|split; vm_compute; reflexivity].
  apply (single_touch_abort (flaky_dev 12) (init_state 0 0 1)).
  vm_compute. reflexivity.
Defined.

(** X6: with multi-touch enabled, an operation on an active slot within
    bounds, and [mt_down] on any slot within bounds, stops at the first
    write that fails, returns [RS_ERR] exactly then, and otherwise has
    written its whole sequence: the touch-contact key with a commit when no
    touch was active before a down or none is left after an up, around the
    slot, the tracking ID, the positions, the report marker and the
    commit. *)
Theorem multi_touch_abort (MAX_SLOTS : Z) (fd : device) (slot : Z) (s : state) :
  1 < MAX_SLOTS ->
  0 <= slot < MAX_SLOTS ->
  (forall lx ly,
     aborts_at_first_failure fd (mt_down MAX_SLOTS fd slot lx ly)
       (mt_down_actions (active_touches s =? 0) slot (next_tracking_id s)
          (mapped AxisX fd s lx) (mapped AxisY fd s ly)) s) /\
  (slot_at s slot <> 0 ->
   (forall lx ly,
      aborts_at_first_failure fd (mt_move MAX_SLOTS fd slot lx ly)
        (mt_move_actions slot (mapped AxisX fd s lx) (mapped AxisY fd s ly)) s) /\
   aborts_at_first_failure fd (mt_up MAX_SLOTS fd slot)
     (mt_up_actions (int_sub (active_touches s) 1 <=? 0) slot) s).
Proof.
  intros _ Hb. split; [intros; apply mt_down_aborts, Hb|].
  intros Ha. split; [intros; apply mt_move_aborts; assumption|].
  apply mt_up_aborts; assumption.
Qed.

Lemma multi_touch_abort_witness :
  aborts_at_first_failure (flaky_dev 4) (mt_down 2 (flaky_dev 4) 1 300 150)
    (mt_down_actions true 1 1 300 150) (init_state 0 0 2) /\
  fst (mt_down 2 (flaky_dev 4) 1 300 150 (init_state 0 0 2)) = RS_ERR.
Proof.
  split; [|vm_compute; reflexivity].
  apply (multi_touch_abort 2 (flaky_dev 4) 1 (init_state 0 0 2)); lia.
Defined.

(** ** What the gestures leave alone *)

Lemma do_press_globals fd lx ly s : same_globals s (snd (do_press fd lx ly s)).
Proof.
  unfold do_press. unfold_ops. rewrite map_x_run. cbn. rewrite map_y_run. cbn.
  run_writes_with solve_globals; solve_globals.
Qed.

Lemma do_release_globals fd s : same_globals s (snd (do_release fd s)).
Proof.
  unfold do_release. unfold_ops. cbn.
  run_writes_with solve_globals; solve_globals.
Qed.

Lemma do_swipe_globals fd x1 y1 x2 y2 duration_ms steps s :
  same_globals s (snd (do_swipe fd x1 y1 x2 y2 duration_ms steps s)).
Proof.
  rewrite do_swipe_and_then. unfold and_then, bind, ret.
  pose proof (do_tap_globals fd x1 y1 0 s) as H1.
  destruct (do_tap fd x1 y1 0 s) as [r1 s1]. cbn [snd] in H1.
  destruct (r1 =? RS_ERR); [exact H1|].
  destruct (swipe_loop_any fd x1 y1 x2 y2 duration_ms (effective_steps steps)
              (Z.to_nat (effective_steps steps)) 1 s1) as [H2 _].
  destruct (swipe_loop _ fd x1 y1 x2 y2 duration_ms _ 1 s1) as [r2 s2].
  cbn [snd] in H2.
  destruct (r2 =? RS_ERR); [exact (same_globals_trans _ _ _ H1 H2)|].
  eapply same_globals_trans; [exact (same_globals_trans _ _ _ H1 H2)|].
  unfold swipe_lift. unfold_ops. cbn.
  run_writes_with solve_globals; solve_globals.
Qed.

(** X7: the single-touch gestures never touch the globals: the UI
    resolution, the slot table, the counter of tracking IDs and the count of
    active touches are after the gesture what they were before, on every
    device. *)
Theorem single_touch_keeps_globals (fd : device) (s : state) :
  (forall lx ly hold_ms, same_globals s (snd (do_tap fd lx ly hold_ms s))) /\
  (forall lx ly hold_ms, same_globals s (snd (do_longpress fd lx ly hold_ms s))) /\
  (forall lx ly, same_globals s (snd (do_press fd lx ly s))) /\
  same_globals s (snd (do_release fd s)) /\
  (forall x1 y1 x2 y2 duration_ms steps,
     same_globals s (snd (do_swipe fd x1 y1 x2 y2 duration_ms steps s))).
Proof.
  split; [intros; apply do_tap_globals|].
  split; [intros; apply do_tap_globals|].
  split; [intros; apply do_press_globals|].
  split; [apply do_release_globals|].
  intros. apply do_swipe_globals.
Qed.

(** X8: [mt_move] never changes the slot table, the counter of tracking IDs
    or the count of active touches, whether it is rejected, fails on a write
    or succeeds. *)
Theorem mt_move_keeps_tracker (MAX_SLOTS : Z) (fd : device) (slot lx ly : Z)
    (s : state) :
  slot_tracking (snd (mt_move MAX_SLOTS fd slot lx ly s)) = slot_tracking s /\
  next_tracking_id (snd (mt_move MAX_SLOTS fd slot lx ly s)) = next_tracking_id s /\
  active_touches (snd (mt_move MAX_SLOTS fd slot lx ly s)) = active_touches s.
Proof.
  destruct (mt_move_globals MAX_SLOTS fd slot lx ly s) as (_ & _ & H1 & H2 & H3).
  repeat split; assumption.
Qed.

(** X9: with multi-touch enabled, [mt_down] on a slot out of bounds returns
    failure without allocating a tracking ID, without a write and with the
    state as it was. *)
Theorem mt_down_rejected (MAX_SLOTS : Z) (fd : device) (slot lx ly : Z) (s : state) :
  1 < MAX_SLOTS ->
  slot < 0 \/ MAX_SLOTS <= slot ->
  fst (mt_down MAX_SLOTS fd slot lx ly s) = RS_ERR /\
  emitted (mt_down MAX_SLOTS fd slot lx ly) s = [] /\
  snd (mt_down MAX_SLOTS fd slot lx ly s) = s.
Proof.
  intros _ H. unfold emitted.
  rewrite (mt_down_out_of_bounds MAX_SLOTS fd slot lx ly s H).
  cbn [fst snd]. rewrite drop_all. repeat split.
Qed.

Lemma mt_down_rejected_witness :
  fst (mt_down 2 plain_dev 2 300 150 (init_state 0 0 2)) = RS_ERR /\
  snd (mt_down 2 plain_dev 2 300 150 (init_state 0 0 2)) = init_state 0 0 2.
Proof.
  destruct (mt_down_rejected 2 plain_dev 2 300 150 (init_state 0 0 2))
    as (H1 & _ & H2); [lia | right; lia |].
  split; assumption.
Defined.

(** ** The range of the mapper *)

(** X10: when the axis reports [min <= max] and the UI dimension is
    positive, a logical coordinate within [0 .. dim] is mapped into
    [min .. max], 0 to [min] and [dim] to [max]. *)
Theorem map_within_axis_range (ax : axis) (fd : device) (s : state)
    (a : input_absinfo) (l : Z) :
  first_absinfo fd (mt_code ax) (st_code ax) = Some a ->
  is_int (minimum a) -> is_int (maximum a) ->
  minimum a <= maximum a ->
  0 < ui_dim ax s ->
  0 <= l <= ui_dim ax s ->
  minimum a <= mapped ax fd s l <= maximum a /\
  mapped ax fd s 0 = minimum a /\
  mapped ax fd s (ui_dim ax s) = maximum a.
Proof.
  intros Ha Hmin Hmax Hr Hd Hl. unfold mapped.
  rewrite !(map_axis_rescaled ax fd _ s a) by (auto; lia).
  unfold rescale_spec.
  set (d := maximum a - minimum a). set (w := ui_dim ax s) in *.
  assert (Hd0 : 0 <= d) by (unfold d; lia).
  assert (Hq : 0 <= l * d ÷ w <= d).
  { split; [apply Z.quot_pos; nia|].
    apply Z.quot_le_upper_bound; [lia | nia]. }
  assert (Hw : w * d ÷ w = d).
  { rewrite Z.mul_comm. apply Z.quot_mul. lia. }
  unfold is_int, INT_MIN, INT_MAX in *.
  rewrite !to_int_id by (unfold is_int, INT_MIN, INT_MAX;
    rewrite ?Hw, ?Z.mul_0_l, ?Z.quot_0_l; unfold d in *; lia).
  rewrite Hw, Z.mul_0_l, Z.quot_0_l by lia. unfold d in *. lia.
Qed.

Lemma map_within_axis_range_witness :
  0 <= mapped AxisX (mt_panel 0 4095) (init_state 800 480 1) 400 <= 4095 /\
  mapped AxisX (mt_panel 0 4095) (init_state 800 480 1) 800 = 4095.
Proof.
  destruct (map_within_axis_range AxisX (mt_panel 0 4095) (init_state 800 480 1)
              (mkAbs 0 4095) 400) as (H1 & _ & H3);
    [reflexivity | vm_compute; split; discriminate
    | vm_compute; split; discriminate | cbn; lia | cbn; lia | cbn; lia |].
  split; [exact H1 | exact H3].
Defined.

(** ** The pauses and the end of a swipe *)

Lemma slept_total_app l1 l2 :
  slept_total (l1 ++ l2) = slept_total l1 + slept_total l2.
Proof.
  induction l1 as [|[e|u] l1 IH]; cbn [app slept_total]; rewrite ?IH; lia.
Qed.

Lemma slept_total_sleep ms :
  ms * 1000 <= INT_MAX -> slept_total (sleep_actions ms) = Z.max 0 ms * 1000.
Proof.
  intros H1. unfold sleep_actions.
  destruct (0 <? ms) eqn:E.
  - apply Z.ltb_lt in E. cbn [slept_total]. unfold int_mul.
    rewrite to_int_id by (unfold is_int, INT_MIN, INT_MAX in *; lia).
    unfold INT_MAX in H1. rewrite Z.mod_small; lia.
  - apply Z.ltb_ge in E. cbn [slept_total]. lia.
Qed.

Lemma slept_total_movement fd s pause pts :
  pause * 1000 <= INT_MAX ->
  slept_total (movement_actions fd s pause pts) =
  Z.of_nat (length pts) * (Z.max 0 pause * 1000).
Proof.
  intros H1. induction pts as [|p pts IH]; [reflexivity|].
  rewrite movement_actions_cons, slept_total_app, IH.
  unfold step_actions. rewrite slept_total_app, slept_total_sleep by assumption.
  cbn [slept_total length ev]. lia.
Qed.

(** X11: a swipe that succeeds, with a number of steps [n] below [INT_MAX]
    (10 when [steps] is below 1) and a pause [duration_ms / n] that fits
    [int] when counted in microseconds, sleeps that pause after each of its
    steps when it is positive, and at no other point: in all [n] times the
    truncated quotient, or nothing. For [duration_ms >= 0] that is at most
    [duration_ms] and misses it by less than [n] milliseconds; with
    [duration_ms < n], a negative one included, the swipe does not sleep at
    all. *)
Theorem swipe_sleeps (fd : device) (x1 y1 x2 y2 duration_ms steps : Z) (s : state) :
  let n := if steps <? 1 then 10 else steps in
  let total := slept_total (emitted (do_swipe fd x1 y1 x2 y2 duration_ms steps) s) in
  steps < INT_MAX ->
  duration_ms ÷ n * 1000 <= INT_MAX ->
  fst (do_swipe fd x1 y1 x2 y2 duration_ms steps s) = RS_OK ->
  total = n * Z.max 0 (duration_ms ÷ n) * 1000 /\
  (0 <= duration_ms -> (duration_ms - n) * 1000 < total <= duration_ms * 1000) /\
  (duration_ms < n -> total = 0).
Proof.
  intros n total _ H1 H. subst total.
  destruct (do_swipe_cases fd x1 y1 x2 y2 duration_ms steps s) as [E | [_ T]];
    [rewrite E in H; discriminate H|].
  rewrite (trace_emitted _ _ _ T). unfold swipe_actions.
  fold n. change (effective_steps steps) with n in *.
  assert (Hn : 1 <= n) by apply effective_steps_pos.
  pose proof (Z.quot_rem' duration_ms n) as Hqr.
  rewrite !slept_total_app.
  unfold tap_actions. rewrite !slept_total_app.
  rewrite slept_total_movement by exact H1.
  unfold swipe_points. rewrite length_fmap, length_seqZ.
  change (slept_total (sleep_actions 0)) with 0.
  change (slept_total (contact_actions _ _)) with 0.
  change (slept_total release_actions) with 0.
  change (slept_total lift_actions) with 0.
  rewrite Nat2Z.id, Z2Nat.id by lia.
  split; [lia|]. split.
  - intros H0.
    assert (Hq : 0 <= duration_ms ÷ n) by (apply Z.quot_pos; lia).
    pose proof (Z.rem_bound_pos duration_ms n H0 ltac:(lia)) as Hr.
    rewrite Z.max_r by exact Hq. nia.
  - intros Hlt.
    assert (Hq : duration_ms ÷ n <= 0).
    { destruct (Z_le_dec 0 duration_ms) as [H0|H0].
      - rewrite Z.quot_small by lia. lia.
      - apply Z.quot_le_upper_bound; lia. }
    rewrite Z.max_l by exact Hq. lia.
Qed.

(** Fifty minutes in 20 steps: the duration in microseconds does not fit
    [int], each pause does. *)
Lemma swipe_sleeps_witness :
  slept_total (emitted (do_swipe plain_dev 100 100 400 300 3000000 20)
                 (init_state 0 0 1)) = 20 * 150000 * 1000.
Proof.
  apply (proj1 (swipe_sleeps plain_dev 100 100 400 300 3000000 20
                  (init_state 0 0 1) ltac:(vm_compute; reflexivity)
                  ltac:(vm_compute; discriminate) ltac:(vm_compute; reflexivity))).
Defined.

Lemma swipe_points_last x1 y1 x2 y2 n :
  1 <= n ->
  swipe_points x1 y1 x2 y2 n 1 (Z.to_nat n) =
  swipe_points x1 y1 x2 y2 n 1 (Z.to_nat (n - 1)) ++ [swipe_point x1 y1 x2 y2 n n].
Proof.
  intros Hn. unfold swipe_points.
  replace (Z.to_nat n) with (S (Z.to_nat (n - 1))) by lia.
  rewrite seqZ_S, fmap_app. cbn [fmap list_fmap].
  do 3 f_equal. lia.
Qed.

Lemma movement_actions_app fd s pause pts1 pts2 :
  movement_actions fd s pause (pts1 ++ pts2) =
  movement_actions fd s pause pts1 ++ movement_actions fd s pause pts2.
Proof.
  unfold movement_actions. rewrite fmap_app, concat_app. reflexivity.
Qed.

(** X12: a swipe that succeeds ends on its end point: for coordinates below
    [2^23] in magnitude the last position written before the touch key goes
    up is the mapped [(x2, y2)], whatever the number of steps. *)
Theorem swipe_reaches_end_point (fd : device) (x1 y1 x2 y2 duration_ms steps : Z)
    (s : state) :
  steps < INT_MAX ->
  Z.abs x1 < 2 ^ 23 -> Z.abs y1 < 2 ^ 23 ->
  Z.abs x2 < 2 ^ 23 -> Z.abs y2 < 2 ^ 23 ->
  fst (do_swipe fd x1 y1 x2 y2 duration_ms steps s) = RS_OK ->
  let n := if steps <? 1 then 10 else steps in
  exists before,
    emitted (do_swipe fd x1 y1 x2 y2 duration_ms steps) s =
      before ++
      [ev EV_ABS ABS_X (mapped AxisX fd s x2);
       ev EV_ABS ABS_Y (mapped AxisY fd s y2);
       ev EV_SYN SYN_REPORT 0] ++
      sleep_actions (duration_ms ÷ n) ++
      [ev EV_KEY BTN_TOUCH 0; ev EV_SYN SYN_REPORT 0].
Proof.
  intros _ Hx1 Hy1 Hx2 Hy2 H n.
  destruct (do_swipe_cases fd x1 y1 x2 y2 duration_ms steps s) as [E | [_ T]];
    [rewrite E in H; discriminate H|].
  rewrite (trace_emitted _ _ _ T). unfold swipe_actions.
  change (effective_steps steps) with n.
  assert (Hn : 1 <= n) by apply effective_steps_pos.
  rewrite (swipe_points_last x1 y1 x2 y2 n Hn), movement_actions_app.
  assert (Hp : swipe_point x1 y1 x2 y2 n n = (x2, y2)).
  { unfold swipe_point. rewrite (div_self n Hn), !lerp_end by assumption.
    reflexivity. }
  rewrite Hp.
  exists (tap_actions (mapped AxisX fd s x1) (mapped AxisY fd s y1) 0 ++
          movement_actions fd s (duration_ms ÷ n)
            (swipe_points x1 y1 x2 y2 n 1 (Z.to_nat (n - 1)))).
  unfold lift_actions.
  cbn [movement_actions fmap list_fmap concat step_actions fst snd].
  rewrite app_nil_r, <- !app_assoc. reflexivity.
Qed.

Lemma swipe_reaches_end_point_witness :
  exists before,
    emitted (do_swipe plain_dev 100 100 400 300 500 7) (init_state 0 0 1) =
      before ++
      [ev EV_ABS ABS_X 400; ev EV_ABS ABS_Y 300; ev EV_SYN SYN_REPORT 0] ++
      sleep_actions (500 ÷ 7) ++
      [ev EV_KEY BTN_TOUCH 0; ev EV_SYN SYN_REPORT 0].
Proof.
  apply (swipe_reaches_end_point plain_dev 100 100 400 300 500 7 (init_state 0 0 1));
    vm_compute; reflexivity.
Defined.

(** ** Failing and undoing multi-touch operations *)

(** X13: [mt_up] on an active slot within bounds is undone by a failure of
    one of its first four writes (the tracker is as before, the slot still
    active), but not by a failure of the touch-contact key that follows:
    once the four writes are through the slot is cleared and the touch
    counted off, and when the key or its commit then fails the operation
    returns [RS_ERR] with the slot inactive. *)
Theorem mt_up_failure (MAX_SLOTS : Z) (fd : device) (slot : Z) (s : state) :
  1 < MAX_SLOTS ->
  0 <= slot < MAX_SLOTS ->
  slot_at s slot <> 0 ->
  let r := fst (mt_up MAX_SLOTS fd slot s) in
  let s' := snd (mt_up MAX_SLOTS fd slot s) in
  let n := attempts s in
  let four := write_ok fd n && write_ok fd (S n) && write_ok fd (S (S n)) &&
              write_ok fd (S (S (S n))) in
  let a := int_sub (active_touches s) 1 in
  (four = false -> r = RS_ERR /\ same_globals s s') /\
  (four = true ->
   slot_tracking s' = <[Z.to_nat slot := 0]> (slot_tracking s) /\
   active_touches s' = (if a <=? 0 then 0 else a) /\
   (a <= 0 ->
    write_ok fd (S (S (S (S n)))) && write_ok fd (S (S (S (S (S n))))) = false ->
    r = RS_ERR)).
Proof.
  intros _ Hb Ha. destruct (active_slot_tests _ _ _ Hb Ha) as (E1 & E2 & E3).
  unfold mt_up. unfold_ops. rewrite E1, E2, E3. cbn.
  run_writes_with ltac:(split; [intros _; split; [reflexivity | solve_globals]
                                | intros [=]]).
  all: destruct (int_sub (active_touches s) 1 <=? 0) eqn:Ec; cbn;
    repeat match goal with
           | H : write_ok ?fd ?k = _ |- context [write_ok ?fd ?k] => rewrite H; cbn
           end;
    (split; [intros [=]|]); intros _; repeat split; intros;
    try reflexivity; try discriminate; apply Z.leb_gt in Ec; lia.
Qed.

Lemma mt_up_failure_witness :
  let s1 := snd (mt_down 2 plain_dev 0 150 150 (init_state 0 0 2)) in
  fst (mt_up 2 (flaky_dev 12) 0 s1) = RS_ERR /\
  slot_at (snd (mt_up 2 (flaky_dev 12) 0 s1)) 0 = 0 /\
  fst (mt_up 2 (flaky_dev 9) 0 s1) = RS_ERR /\
  slot_at (snd (mt_up 2 (flaky_dev 9) 0 s1)) 0 = 1.
Proof.
  intros s1.
  destruct (mt_up_failure 2 (flaky_dev 12) 0 s1) as [_ H12];
    [lia | lia | vm_compute; discriminate |].
  destruct (H12 eq_refl) as (Ht & _ & Hr).
  destruct (mt_up_failure 2 (flaky_dev 9) 0 s1) as [H9 _];
    [lia | lia | vm_compute; discriminate |].
  destruct (H9 eq_refl) as (Hr9 & _ & _ & Ht9 & _).
  split; [apply Hr; [vm_compute; discriminate | reflexivity]|].
  split; [unfold slot_at; rewrite Ht; reflexivity|].
  split; [exact Hr9|].
  unfold slot_at. rewrite Ht9. reflexivity.
Defined.

(** X14: on a device that accepts every write, a down and an up on an
    inactive slot within bounds both succeed and leave the slot table and
    the count of active touches as they were; one tracking ID is used up. *)
Theorem down_up_round_trip (MAX_SLOTS : Z) (fd : device) (slot lx ly : Z)
    (s : state) :
  1 < MAX_SLOTS ->
  reliable fd ->
  0 <= slot < MAX_SLOTS ->
  length (slot_tracking s) = Z.to_nat MAX_SLOTS ->
  slot_at s slot = 0 ->
  0 <= active_touches s < INT_MAX ->
  1 <= next_tracking_id s <= TRACKING_ID_MAX ->
  let s' := snd (down_then_up MAX_SLOTS fd slot lx ly s) in
  fst (down_then_up MAX_SLOTS fd slot lx ly s) = RS_OK /\
  slot_tracking s' = slot_tracking s /\
  active_touches s' = active_touches s /\
  next_tracking_id s' = next_id (next_tracking_id s).
Proof.
  intros _ Hrel Hb Hlen Hz Hact Hid. unfold down_then_up, bind, ret.
  destruct (mt_down_tracker MAX_SLOTS fd slot lx ly s Hb) as (Ht & Hc & _).
  destruct (mt_down_cases MAX_SLOTS fd slot lx ly s Hb)
    as [[_ Hf] | (Hr & Ha & _)];
    [destruct (reliable_never_fails _ _ _ Hrel Hf)|].
  destruct (mt_down MAX_SLOTS fd slot lx ly s) as [r1 s1].
  cbn [fst snd] in *. subst r1. cbn [Z.eqb RS_OK RS_ERR].
  assert (Hs1 : slot_at s1 slot <> 0).
  { rewrite (slot_at_insert s slot (next_tracking_id s) s1) by (lia || exact Ht).
    lia. }
  destruct (mt_up_tracker MAX_SLOTS fd slot s1) as (Hc' & _).
  destruct (mt_up_cases MAX_SLOTS fd slot s1 Hb Hs1)
    as [[_ Hf] | (Hr & Ht' & Ha' & _)];
    [destruct (reliable_never_fails _ _ _ Hrel Hf)|].
  split; [exact Hr|].
  assert (Hadd : int_add (active_touches s) 1 = active_touches s + 1).
  { unfold int_add. apply to_int_id. unfold is_int, INT_MIN, INT_MAX in *. lia. }
  assert (Hsub : int_sub (active_touches s1) 1 = active_touches s).
  { rewrite Ha, Hadd. unfold int_sub.
    replace (active_touches s + 1 - 1) with (active_touches s) by lia.
    apply to_int_id. unfold is_int, INT_MIN, INT_MAX in *. lia. }
  split; [|split].
  - rewrite Ht', Ht, list_insert_insert_eq. apply list_insert_id.
    unfold slot_at in Hz.
    destruct (lookup_lt_is_Some_2 (slot_tracking s) (Z.to_nat slot)) as [t Hl];
      [lia|].
    rewrite Hl in Hz. cbn in Hz. subst t. exact Hl.
  - rewrite Ha', Hsub.
    destruct (active_touches s <=? 0) eqn:E; [apply Z.leb_le in E; lia | reflexivity].
  - rewrite Hc', Hc. reflexivity.
Qed.

Lemma down_up_round_trip_witness :
  let s' := snd (down_then_up 2 plain_dev 1 300 150 (init_state 0 0 2)) in
  slot_tracking s' = slot_tracking (init_state 0 0 2) /\ active_touches s' = 0.
Proof.
  intros s'.
  destruct (down_up_round_trip 2 plain_dev 1 300 150 (init_state 0 0 2))
    as (_ & H1 & H2 & _);
    [lia | intros n; reflexivity | lia | reflexivity | reflexivity
    | vm_compute; split; [discriminate | reflexivity]
    | vm_compute; split; discriminate |].
  split; [exact H1 | exact H2].
Defined.


(** ** The command dispatch *)

Lemma slot_at_init w h MAX_SLOTS slot : slot_at (init_state w h MAX_SLOTS) slot = 0.
Proof.
  unfold slot_at, init_state. cbn [slot_tracking].
  destruct (replicate (Z.to_nat MAX_SLOTS) 0 !! Z.to_nat slot) as [t|] eqn:E;
    [|reflexivity].
  apply lookup_replicate in E. destruct E as [-> _]. reflexivity.
Qed.

(** X15: a command that is none of the gestures makes [main] print the
    usage and return [RS_OK], the status of success, with the device opened
    and nothing written; when multi-touch is not compiled in
    ([MAX_SLOTS <= 1], as the source has it) that is what [mt-down],
    [mt-move] and [mt-up] do. *)
Theorem unknown_command_exits_ok (MAX_SLOTS : Z) (atoi : string -> Z)
    (fd : device) (grab_flag : bool) (w h : Z) (cmd : string) (ops : list string) :
  cmd ∉ single_touch_commands ->
  (1 < MAX_SLOTS -> cmd ∉ multi_touch_commands) ->
  main_command MAX_SLOTS atoi (Some fd) grab_flag w h (cmd :: ops) =
  Some (mkExit RS_OK true grab_flag true (init_state w h MAX_SLOTS)).
Proof.
  intros Hs Hm. unfold single_touch_commands, multi_touch_commands in *.
  rewrite !not_elem_of_cons in Hs. destruct Hs as (H1 & H2 & H3 & H4 & H5 & _).
  apply String.eqb_neq in H1, H2, H3, H4, H5.
  unfold main_command. rewrite H1, H2, H3, H4, H5.
  destruct (1 <? MAX_SLOTS) eqn:E; [|reflexivity].
  apply Z.ltb_lt in E. specialize (Hm E).
  rewrite !not_elem_of_cons in Hm. destruct Hm as (H6 & H7 & H8 & _).
  apply String.eqb_neq in H6, H7, H8.
  rewrite H6, H7, H8. reflexivity.
Qed.

Lemma unknown_command_exits_ok_witness :
  main_command 1 atoi_digits (Some plain_dev) false 0 0 ["mt-down"; "0"; "150"; "150"] =
  Some (mkExit RS_OK true false true (init_state 0 0 1)).
Proof.
  apply unknown_command_exits_ok.
  - unfold single_touch_commands. rewrite !not_elem_of_cons.
    repeat split; try discriminate. apply not_elem_of_nil.
  - intros H. discriminate H.
Defined.

(** X16: every process starts with the slot table all zero, so with
    multi-touch enabled the commands [mt-move] and [mt-up] fail in the
    process that runs them, whatever their operands and the device: [main]
    returns [RS_ERR] and nothing is written. A touch put down by [mt-down]
    in one process cannot be moved or lifted by another. *)
Theorem move_and_up_fail_in_a_fresh_process (MAX_SLOTS : Z) (atoi : string -> Z)
    (fd : device) (grab_flag : bool) (w h : Z) (slot x y : string)
    (more : list string) :
  1 < MAX_SLOTS ->
  main_command MAX_SLOTS atoi (Some fd) grab_flag w h
    ("mt-move" :: slot :: x :: y :: more) =
  Some (mkExit RS_ERR true grab_flag false (init_state w h MAX_SLOTS)) /\
  main_command MAX_SLOTS atoi (Some fd) grab_flag w h ("mt-up" :: slot :: more) =
  Some (mkExit RS_ERR true grab_flag false (init_state w h MAX_SLOTS)).
Proof.
  intros Hm. apply Z.ltb_lt in Hm. unfold main_command. rewrite Hm.
  cbn [String.eqb Ascii.eqb Bool.eqb andb lookup list_lookup fmap option_fmap
       option_map mbind option_bind].
  rewrite mt_move_rejected by (right; right; apply slot_at_init).
  rewrite mt_up_rejected by (right; right; apply slot_at_init).
  split; reflexivity.
Qed.

Lemma move_and_up_fail_in_a_fresh_process_witness :
  main_command 2 atoi_digits (Some plain_dev) false 0 0 ["mt-up"; "0"] =
  Some (mkExit RS_ERR true false false (init_state 0 0 2)).
Proof.
  apply (move_and_up_fail_in_a_fresh_process 2 atoi_digits plain_dev false 0 0
           "0" "0" "0" []).
  lia.
Defined.

(** X18: every process starts its counter of tracking IDs at 1 and its count
    of touches at 0: with multi-touch enabled, an [mt-down] command on a slot
    within bounds that succeeds has written the touch-contact key and the
    tracking ID 1, whatever the slot. Two fingers put down by two runs of
    the program, as the example script does, carry the same tracking ID. *)
Theorem every_process_allocates_id_one (MAX_SLOTS : Z) (atoi : string -> Z)
    (fd : device) (grab_flag : bool) (w h : Z) (slot x y : string)
    (more : list string) :
  1 < MAX_SLOTS ->
  0 <= atoi slot < MAX_SLOTS ->
  exists e,
    main_command MAX_SLOTS atoi (Some fd) grab_flag w h
      ("mt-down" :: slot :: x :: y :: more) = Some e /\
    (exit_status e = RS_OK ->
     trace (exit_globals e) =
       mt_down_actions true (atoi slot) 1
         (mapped AxisX fd (init_state w h MAX_SLOTS) (atoi x))
         (mapped AxisY fd (init_state w h MAX_SLOTS) (atoi y))).
Proof.
  intros Hm Hb. apply Z.ltb_lt in Hm. unfold main_command. rewrite Hm.
  cbn [String.eqb Ascii.eqb Bool.eqb andb lookup list_lookup fmap option_fmap
       option_map mbind option_bind].
  eexists. split; [reflexivity|]. cbn [exit_status exit_globals].
  intros Hr.
  destruct (mt_down_cases MAX_SLOTS fd (atoi slot) (atoi x) (atoi y)
              (init_state w h MAX_SLOTS) Hb) as [[E _] | (_ & _ & T)];
    [rewrite E in Hr; discriminate Hr | exact T].
Qed.

Lemma every_process_allocates_id_one_witness :
  exists e,
    main_command 2 atoi_digits (Some plain_dev) false 0 0
      ["mt-down"; "1"; "300"; "150"] = Some e /\
    (exit_status e = RS_OK ->
     trace (exit_globals e) = mt_down_actions true 1 1 300 150).
Proof.
  apply (every_process_allocates_id_one 2 atoi_digits plain_dev false 0 0
           "1" "300" "150" []).
  - lia.
  - vm_compute. split; [discriminate | reflexivity].
Defined.
